(** * frenchvocab: the candidate-extraction and enrichment pipeline of hello.py

    A shallow embedding of [src/hello.py] and the properties of its
    specification.  Python strings are sequences of Unicode code points,
    effects (HTTP requests, feed parsing, printing, sleeping, the output
    file) are events appended to a trace, and every external collaborator
    answers as a function of the trace so far, so that two calls with the
    same arguments may be answered differently. *)

From Stdlib Require Import ZArith NArith QArith Ascii String List Lia Sorted.
From Stdlib Require Import DecimalString.
From stdpp Require Import base decidable option list gmap sets.

Set Warnings "-register-all".

Local Open Scope N_scope.

(** ** Python [str] *)

Module PyStr.

(** A [str] is the list of its code points: [len], slicing and comparison
    all work on code points, not on bytes. *)
Definition pystr : Type := list N.

Definition utf8_step (acc : list N) (b : N) : list N :=
  if b <? 128 then b :: acc
  else if b <? 192 then
    match acc with
    | c :: acc' => (c * 64 + (b - 128)) :: acc'
    | [] => []
    end
  else if b <? 224 then (b - 192) :: acc
  else if b <? 240 then (b - 224) :: acc
  else (b - 240) :: acc.

(** [u "..."] is the [str] written by a UTF-8 literal of this file. *)
Definition u (s : string) : pystr :=
  rev (fold_left utf8_step (map N_of_ascii (list_ascii_of_string s)) []).

(** [str.isspace] on one code point, which is also the class [\s] of [re]
    on [str] patterns. *)
Definition is_space (c : N) : bool :=
  ((9 <=? c) && (c <=? 13)) || ((28 <=? c) && (c <=? 32))
  || (c =? 133) || (c =? 160) || (c =? 5760)
  || ((8192 <=? c) && (c <=? 8202))
  || (c =? 8232) || (c =? 8233) || (c =? 8239) || (c =? 8287) || (c =? 12288).

Fixpoint drop_while (p : N -> bool) (s : pystr) : pystr :=
  match s with
  | [] => []
  | c :: rest => if p c then drop_while p rest else s
  end.

Fixpoint take_while (p : N -> bool) (s : pystr) : pystr :=
  match s with
  | [] => []
  | c :: rest => if p c then c :: take_while p rest else []
  end.

(** [s.strip()] *)
Definition strip (s : pystr) : pystr :=
  rev (drop_while is_space (rev (drop_while is_space s))).

(** [s.lstrip('#')] *)
Definition lstrip_char (ch : N) (s : pystr) : pystr :=
  drop_while (N.eqb ch) s.

(** [s.startswith(p)] *)
Fixpoint startswith (p s : pystr) : bool :=
  match p, s with
  | [], _ => true
  | _ :: _, [] => false
  | a :: p', b :: s' => (a =? b) && startswith p' s'
  end.

(** [needle in hay] *)
Fixpoint contains (needle hay : pystr) : bool :=
  startswith needle hay ||
  match hay with
  | [] => false
  | _ :: rest => contains needle rest
  end.

(** What [in] decides: [needle] occurs in [hay] as a contiguous block. *)
Definition substring_of (needle hay : pystr) : Prop :=
  exists pre post, hay = pre ++ needle ++ post.

(** Line boundaries of [str.splitlines]. *)
Definition is_linebreak (c : N) : bool :=
  ((10 <=? c) && (c <=? 13)) || ((28 <=? c) && (c <=? 30))
  || (c =? 133) || (c =? 8232) || (c =? 8233).

Fixpoint splitlines_from (cur : pystr) (s : pystr) : list pystr :=
  match s with
  | [] => match cur with [] => [] | _ => [rev cur] end
  | c :: rest =>
      if is_linebreak c then
        rev cur ::
        match rest with
        | d :: rest' =>
            if (c =? 13) && (d =? 10) then splitlines_from [] rest'
            else splitlines_from [] rest
        | [] => []
        end
      else splitlines_from (c :: cur) rest
  end.

(** [s.splitlines()] *)
Definition splitlines (s : pystr) : list pystr := splitlines_from [] s.

(** [s.split(".")[0]] and [re.split(r"[.;]", s)[0]]: the text before the
    first delimiter. *)
Definition before_first (is_delim : N -> bool) (s : pystr) : pystr :=
  take_while (fun c => negb (is_delim c)) s.

(** [re.split(r"[.!?]\s+", s)]: [skipping] is set while the [\s+] of a
    match is being consumed. *)
Definition is_terminator (c : N) : bool :=
  (c =? 46) || (c =? 33) || (c =? 63).

Fixpoint split_sentences_from (cur : pystr) (skipping : bool) (s : pystr)
  : list pystr :=
  match s with
  | [] => [rev cur]
  | c :: rest =>
      if skipping && is_space c then split_sentences_from cur true rest
      else if is_terminator c
              && match rest with d :: _ => is_space d | [] => false end
      then rev cur :: split_sentences_from [] true rest
      else split_sentences_from (c :: cur) false rest
  end.

Definition split_sentences (s : pystr) : list pystr :=
  split_sentences_from [] false s.

(** [f"{s:20}"]: left-justified in a field of the given width. *)
Definition ljust (width : nat) (s : pystr) : pystr :=
  s ++ repeat 32 (width - length s)%nat.

(** [str(n)] for a non-negative [int]. *)
Definition of_nat (n : nat) : pystr :=
  map N_of_ascii
    (list_ascii_of_string (NilZero.string_of_uint (Nat.to_uint n))).

(** [a < b] on [str]: lexicographic on code points. *)
Fixpoint ltb (a b : pystr) : bool :=
  match a, b with
  | _, [] => false
  | [], _ :: _ => true
  | x :: a', y :: b' => (x <? y) || ((x =? y) && ltb a' b')
  end.

(** [re.sub] for a pattern that never matches the empty string: [m] tries
    the pattern at the head of its argument and gives the replacement and
    the length matched; [skip] counts the code points of a match still to
    be passed over. *)
Fixpoint re_sub (m : pystr -> option (pystr * nat)) (skip : nat)
    (s : pystr) : pystr :=
  match s with
  | [] => []
  | c :: rest =>
      match skip with
      | S k => re_sub m k rest
      | O =>
          match m s with
          | Some (repl, len) => repl ++ re_sub m (pred len) rest
          | None => c :: re_sub m 0 rest
          end
      end
  end.

End PyStr.
Import PyStr.

(** ** Exceptions and decoded JSON values *)

(** The exceptions that matter to the program.  [External] stands for
    whatever a collaborator raises (a transport error, a timeout, a JSON
    decoding error, a feed error), with the text [str(e)] gives. *)
Inductive exn : Type :=
| NameError (name : pystr)
| KeyError
| IndexError
| TypeError
| AttributeError
| ValueError
| External (msg : pystr).

Inductive result (A : Type) : Type :=
| Ok (a : A)
| Raise (e : exn).
Arguments Ok {A} a.
Arguments Raise {A} e.

Definition rbind {A B} (r : result A) (k : A -> result B) : result B :=
  match r with
  | Ok a => k a
  | Raise e => Raise e
  end.

Declare Scope result_scope.
Delimit Scope result_scope with result.
Notation "'let*' x ':=' r 'in' k" := (rbind r (fun x => k))
  (at level 10, x name, r at level 100, k at level 200) : result_scope.

(** [str(e)] *)
Definition exn_str (e : exn) : pystr :=
  match e with
  | NameError name => u "name '" ++ name ++ u "' is not defined"
  | KeyError => u "KeyError"
  | IndexError => u "IndexError"
  | TypeError => u "TypeError"
  | AttributeError => u "AttributeError"
  | ValueError => u "Sample larger than population or is negative"
  | External msg => msg
  end.

Module Json.

(** What [Response.json()] returns.  An object keeps its members in
    order, as a [dict] does; its keys are pairwise different.  A float is
    given by its value; the program only tests numbers for being zero. *)
Inductive value : Type :=
| JNull
| JBool (b : bool)
| JInt (z : Z)
| JFloat (q : Q)
| JStr (s : pystr)
| JArr (items : list value)
| JObj (members : list (pystr * value)).

Fixpoint lookup_key (key : pystr) (members : list (pystr * value))
  : option value :=
  match members with
  | [] => None
  | (k, v) :: rest => if decide (k = key) then Some v else lookup_key key rest
  end.

(** Truth value of an object in a condition. *)
Definition truthy (v : value) : bool :=
  match v with
  | JNull => false
  | JBool b => b
  | JInt z => negb (z =? 0)%Z
  | JFloat q => negb (Qeq_bool q 0)
  | JStr s => match s with [] => false | _ => true end
  | JArr items => match items with [] => false | _ => true end
  | JObj members => match members with [] => false | _ => true end
  end.

(** [v.get(key, default)]: only a [dict] has the method. *)
Definition get (v : value) (key : pystr) (default : value) : result value :=
  match v with
  | JObj members => Ok (from_option id default (lookup_key key members))
  | _ => Raise AttributeError
  end.

(** [v[0]] *)
Definition item0 (v : value) : result value :=
  match v with
  | JArr (x :: _) => Ok x
  | JArr [] => Raise IndexError
  | JStr (c :: _) => Ok (JStr [c])
  | JStr [] => Raise IndexError
  | JObj _ => Raise KeyError
  | _ => Raise TypeError
  end.

(** [v[key]] for a [str] key *)
Definition item (v : value) (key : pystr) : result value :=
  match v with
  | JObj members =>
      match lookup_key key members with
      | Some x => Ok x
      | None => Raise KeyError
      end
  | _ => Raise TypeError
  end.

(** [for x in v]: the items iterated over. *)
Definition iter (v : value) : result (list value) :=
  match v with
  | JArr items => Ok items
  | JObj members => Ok (map (fun kv => JStr (fst kv)) members)
  | JStr s => Ok (map (fun c => JStr [c]) s)
  | _ => Raise TypeError
  end.

(** [v.values()] *)
Definition values (v : value) : result (list value) :=
  match v with
  | JObj members => Ok (map snd members)
  | _ => Raise AttributeError
  end.

(** [v.strip()] and [v.split(".")]: only a [str] has the methods. *)
Definition as_str (v : value) : result pystr :=
  match v with
  | JStr s => Ok s
  | _ => Raise AttributeError
  end.

End Json.
Import Json.

(** ** The runtime and the outside world *)

(** Built-ins of the Python runtime whose tables are not part of the
    program: [str.lower] (the full Unicode lowercase mapping) and [str()]
    of a decoded JSON value inside an f-string (the identity on a [str]). *)
Class Runtime : Type := {
  lower : pystr -> pystr;
  repr : value -> pystr
}.

Definition format_value `{Runtime} (v : value) : pystr :=
  match v with
  | JStr s => s
  | _ => repr v
  end.

(** What the program does to the world, in order. *)
Inductive event : Type :=
| Print (line : pystr)
| HttpGet (url : pystr)
| HttpPost (url : pystr) (q : pystr)
| FeedParse (url : pystr)
| Sleep (seconds : Z)
| WriteFile (path : pystr) (content : pystr).

Definition trace : Type := list event.

(** A [requests.Response]: [json] is what [r.json()] does. *)
Record Response : Type := {
  status_code : Z;
  text : pystr;
  json : result value
}.

(** An entry of a parsed feed: the fields the program looks at. *)
Record Entry : Type := {
  summary : option pystr;
  description : option pystr
}.

(** A token of spaCy's [Doc]: [lemma_], [pos_], [is_alpha], [len(tok)]. *)
Record Token : Type := {
  lemma_ : pystr;
  pos_ : pystr;
  is_alpha : bool;
  tok_len : nat
}.

(** The collaborators.  Each answers from the trace so far.
    - [requests_get t url]: [requests.get(url, timeout=5)];
    - [translate t q]: [requests.post(libretranslate, data=..., timeout=5).json()];
    - [feedparser_parse t url]: [feedparser.parse(url).entries];
    - [spacy_load t]: [import spacy; spacy.load("fr_core_news_sm")], [None]
      when either raises;
    - [frequent_words t]: the lines of data/frequent_french_words.txt,
      [None] when the file cannot be read;
    - [randbelow i n]: the [i]-th draw of the random generator, below [n]
      (taken modulo [n]);
    - [lexicon_defs]: the binding of the global name [lexicon_defs] when
      line 128 of [fetch_definition] runs, [None] when the name is unbound.
      hello.py itself never assigns the name. *)
Record World : Type := {
  requests_get : trace -> pystr -> result Response;
  translate : trace -> pystr -> result value;
  feedparser_parse : trace -> pystr -> result (list Entry);
  spacy_load : trace -> option (pystr -> list Token);
  frequent_words : trace -> option (list pystr);
  randbelow : nat -> nat -> nat;
  lexicon_defs : option (gmap pystr pystr)
}.

(** ** Computations: a trace threaded through, and an exception or a value *)

Definition M (A : Type) : Type := trace -> result A * trace.

Definition ret {A} (a : A) : M A := fun t => (Ok a, t).

Definition raise {A} (e : exn) : M A := fun t => (Raise e, t).

Definition bind {A B} (m : M A) (k : A -> M B) : M B :=
  fun t =>
    match m t with
    | (Ok a, t') => k a t'
    | (Raise e, t') => (Raise e, t')
    end.

Definition emit (e : event) : M unit := fun t => (Ok tt, t ++ [e]).

Definition lift {A} (r : result A) : M A := fun t => (r, t).

(** [try: body  except Exception: handler] *)
Definition try_except {A} (body : M A) (handler : exn -> M A) : M A :=
  fun t =>
    match body t with
    | (Ok a, t') => (Ok a, t')
    | (Raise e, t') => handler e t'
    end.

Declare Scope M_scope.
Delimit Scope M_scope with M.
Notation "'let*' x ':=' m 'in' k" := (bind m (fun x => k))
  (at level 10, x name, m at level 100, k at level 200) : M_scope.
Notation "'do' m 'then' k" := (bind m (fun _ => k))
  (at level 10, m at level 100, k at level 200) : M_scope.

Local Open Scope nat_scope.

(** The code point of an ASCII character. *)
Definition ord (a : ascii) : N := N_of_ascii a.
Arguments ord a%_char.

(** ** Library functions the program calls *)

Module PyLib.

Section Counter.

Context {K : Type} `{EqDecision K}.

(** [counts[k] += 1]: a new key goes last, as in a [dict]. *)
Fixpoint counter_add (counts : list (K * nat)) (k : K) : list (K * nat) :=
  match counts with
  | [] => [(k, 1)]
  | (k', n) :: rest =>
      if decide (k' = k) then (k', S n) :: rest
      else (k', n) :: counter_add rest k
  end.

(** [Counter(items).items()]: the keys in the order they first occur. *)
Definition Counter (items : list K) : list (K * nat) :=
  fold_left counter_add items [].

End Counter.

Section Sorted.

Context {A : Type} (key : A -> pystr).

Fixpoint insert_by (x : A) (l : list A) : list A :=
  match l with
  | [] => [x]
  | y :: l' => if ltb (key y) (key x) then y :: insert_by x l' else x :: l
  end.

(** [sorted(l, key=key)]: the sort is stable, which fixes its result;
    insertion from the right is stable. *)
Definition sorted (l : list A) : list A := foldr insert_by [] l.

End Sorted.

Section Sample.

Context {A : Type} (rb : nat -> nat -> nat).

(** The selection loop of [random.sample]: the [i]-th draw picks a
    position of the pool, whose last item then fills the hole.  Every
    choice of [k] different positions, in every order, is the result
    for some generator. *)
Fixpoint sample_from (i : nat) (pool : list A) (k : nat) : list A :=
  match k with
  | 0 => []
  | S k' =>
      let n := length pool in
      let j := rb i n mod n in
      match pool !! j, last pool with
      | Some x, Some y =>
          x :: sample_from (S i) (take (n - 1) (<[j := y]> pool)) k'
      | _, _ => []
      end
  end.

(** [random.sample(population, k)] for [0 <= k] *)
Definition random_sample (population : list A) (k : nat) : result (list A) :=
  if k <=? length population then Ok (sample_from 0 population k)
  else Raise ValueError.

End Sample.

End PyLib.
Import PyLib.

(** ** hello.py *)

Module Hello.

(** *** The lexicon and [advanced_lemmas] (lines 35-50) *)

(** A row of the FLELex table, with the three columns the program reads.
    The frequencies are floats; a float is a rational, and the program
    only compares them with [0] and [100]. *)
Record LexRow : Type := {
  word : pystr;
  freq_total : Q;
  freq_C2 : Q
}.

Definition Qltb (a b : Q) : bool := negb (Qle_bool b a).

(** [rare_mask], row by row. *)
Definition rare_mask (r : LexRow) : bool :=
  Qltb 0 (freq_C2 r) && Qltb (freq_total r) 100 && (6 <? length (word r)).

(** [set(df.loc[rare_mask, "word"].str.lower())] *)
Definition advanced_lemmas `{Runtime} (df : list LexRow) : gset pystr :=
  list_to_set (map (fun r => lower (word r)) (List.filter rare_mask df)).

(** *** [_clean_wikicode] (lines 57-62) *)

Definition isnt (ch : N) (c : N) : bool := negb (c =? ch)%N.

(** [\{\{[^}]*}}], replaced by nothing *)
Definition m_template (s : pystr) : option (pystr * nat) :=
  if startswith (u "{{") s then
    let rest := drop 2 s in
    let body := take_while (isnt (ord "}")) rest in
    if startswith (u "}}") (drop_while (isnt (ord "}")) rest)
    then Some ([], 4 + length body)
    else None
  else None.

(** [\[\[[^\]|]+\|([^]]+)]]], replaced by its group *)
Definition m_piped_link (s : pystr) : option (pystr * nat) :=
  if startswith (u "[[") s then
    let rest := drop 2 s in
    let in_target c := isnt (ord "]") c && isnt (ord "|") c in
    let target := take_while in_target rest in
    let rest1 := drop_while in_target rest in
    match target with
    | [] => None
    | _ :: _ =>
        if startswith (u "|") rest1 then
          let rest2 := drop 1 rest1 in
          let label := take_while (isnt (ord "]")) rest2 in
          match label with
          | [] => None
          | _ :: _ =>
              if startswith (u "]]") (drop_while (isnt (ord "]")) rest2)
              then Some (label, 2 + length target + 1 + length label + 2)
              else None
          end
        else None
    end
  else None.

(** [\[\[([^]]+)]]], replaced by its group *)
Definition m_link (s : pystr) : option (pystr * nat) :=
  if startswith (u "[[") s then
    let rest := drop 2 s in
    let label := take_while (isnt (ord "]")) rest in
    match label with
    | [] => None
    | _ :: _ =>
        if startswith (u "]]") (drop_while (isnt (ord "]")) rest)
        then Some (label, 2 + length label + 2)
        else None
    end
  else None.

(** ['']+, replaced by nothing *)
Definition m_quotes (s : pystr) : option (pystr * nat) :=
  let run := take_while (N.eqb (ord "'")) s in
  if 2 <=? length run then Some ([], length run) else None.

(** [\s+], replaced by one space *)
Definition m_spaces (s : pystr) : option (pystr * nat) :=
  match take_while is_space s with
  | [] => None
  | run => Some ([ord " "], length run)
  end.

Definition _clean_wikicode (text : pystr) : pystr :=
  let text := re_sub m_template 0 text in
  let text := re_sub m_piped_link 0 text in
  let text := re_sub m_link 0 text in
  let text := re_sub m_quotes 0 text in
  strip (re_sub m_spaces 0 text).

Section Program.

(** [df] is the table read from data/FLELex_TreeTagger.csv when the
    module is loaded. *)
Context `{Runtime} (W : World) (df : list LexRow).

Local Open Scope M_scope.

(** [print(line)] *)
Definition print (line : pystr) : M unit := emit (Print line).

(** [requests.get(url, timeout=5)] *)
Definition http_get (url : pystr) : M Response :=
  fun t => (requests_get W t url, t ++ [HttpGet url]).

(** *** [fetch_definition] (lines 78-128) *)

(** The loop of lines 84-87: [Some d] when it returns [d], [None] when
    it runs to its end. *)
Fixpoint scan_meanings (meanings : list value) : result (option pystr) :=
  match meanings with
  | [] => Ok None
  | m :: rest =>
      (let* defs := get m (u "definitions") (JArr []) in
       if truthy defs then
         let* d0 := item0 defs in
         let* d := get d0 (u "definition") JNull in
         if truthy d then
           let* d0 := item0 defs in
           let* d := item d0 (u "definition") in
           let* s := as_str d in
           Ok (Some (strip s))
         else scan_meanings rest
       else scan_meanings rest)%result
  end.

(** Lines 83-87, on the response to the first request. *)
Definition parse_dictionary (r : Response) : result (option pystr) :=
  (let* j := json r in
   let* entry := item0 j in
   let* meanings := get entry (u "meanings") (JArr []) in
   let* ms := iter meanings in
   scan_meanings ms)%result.

(** Line 80. *)
Definition dictionary_url (word : pystr) : pystr :=
  u "https://api.dictionaryapi.dev/api/v2/entries/fr/" ++ word.

(** The body of the first [try] (lines 80-87). *)
Definition source_dictionary (word : pystr) : M (option pystr) :=
  let* r := http_get (dictionary_url word) in
  if (status_code r =? 200)%Z then lift (parse_dictionary r) else ret None.

(** The loop of lines 105-111. *)
Fixpoint scan_lines (lines : list pystr) : option pystr :=
  match lines with
  | [] => None
  | line :: rest =>
      let line := strip line in
      if startswith (u "#") line && negb (startswith (u "##") line)
         && negb (contains (u "étymologie") (lower line))
      then
        match _clean_wikicode (lstrip_char (ord "#") line) with
        | [] => scan_lines rest
        | clean =>
            Some (strip (before_first
                           (fun c => (c =? ord ".")%N || (c =? ord ";")%N)
                           clean))
        end
      else scan_lines rest
  end.

(** Line 102. *)
Definition wiktionary_url (word : pystr) : pystr :=
  u "https://fr.wiktionary.org/wiki/" ++ word ++ u "?action=raw&lang=fr".

(** The body of the second [try] (lines 102-111). *)
Definition source_wiktionary (word : pystr) : M (option pystr) :=
  let* w := http_get (wiktionary_url word) in
  if (status_code w =? 200)%Z then ret (scan_lines (splitlines (text w)))
  else ret None.

(** Lines 122-124, on the response to the third request. *)
Definition parse_tatoeba (r : Response) : result (option pystr) :=
  (let* j := json r in
   let* results := get j (u "results") (JArr []) in
   if truthy results then
     let* r0 := item0 results in
     let* t := get r0 (u "text") (JStr []) in
     let* s := as_str t in
     Ok (Some (strip s))
   else Ok None)%result.

(** Line 119. *)
Definition tatoeba_url (word : pystr) : pystr :=
  u "https://tatoeba.org/en/api_v0/search?from=fra&query=" ++ word.

(** The body of the third [try] (lines 119-124). *)
Definition source_tatoeba (word : pystr) : M (option pystr) :=
  let* r := http_get (tatoeba_url word) in
  if (status_code r =? 200)%Z then lift (parse_tatoeba r) else ret None.

(** [try: ... except Exception: pass] around a body that may return. *)
Definition try_pass (body : M (option pystr)) : M (option pystr) :=
  try_except body (fun _ => ret None).

(** Line 128.  The global name is looked up when the line runs. *)
Definition lexicon_lookup (word : pystr) : M pystr :=
  match lexicon_defs W with
  | Some defs =>
      let found : option pystr := defs !! lower word in
      ret (default [] found)
  | None => raise (NameError (u "lexicon_defs"))
  end.

Definition fetch_definition (word : pystr) : M pystr :=
  let* a := try_pass (source_dictionary word) in
  match a with
  | Some d => ret d
  | None =>
      let* b := try_pass (source_wiktionary word) in
      match b with
      | Some d => ret d
      | None =>
          let* c := try_pass (source_tatoeba word) in
          match c with
          | Some d => ret d
          | None => lexicon_lookup word
          end
      end
  end.

  (** *** [RSSScraper] (lines 135-146) *)

Record RSSScraper : Type := {
  rss_feeds : list pystr;
  article_sentences : list pystr
}.

(** [RSSScraper()] *)
Definition new_scraper : RSSScraper := {|
  rss_feeds := [
    u "https://www.france24.com/fr/rss";
    u "https://www.lemonde.fr/rss/une.xml";
    u "https://www.francetvinfo.fr/titres.rss";
    u "https://www.radiofrance.fr/rss/arts-et-culture";
    u "https://www.courrierinternational.com/feed/all/rss.xml";
    u "https://www.rfi.fr/fr/rss";
    u "https://www.sciencesetavenir.fr/rss.xml" ];
  article_sentences := []
|}.

(** *** [fetch_articles_from_rss] (lines 155-169) *)

(** [feedparser.parse(feed).entries] *)
Definition feed_entries (feed : pystr) : M (list Entry) :=
  fun t => (feedparser_parse W t feed, t ++ [FeedParse feed]).

(** The inner loop (lines 160-166) over the entries of one feed: the
    articles so far, and whether line 166 returned. *)
Fixpoint collect_entries (max_articles : Z) (articles : list pystr)
    (entries : list Entry) : list pystr * bool :=
  match entries with
  | [] => (articles, false)
  | entry :: rest =>
      let articles :=
        match summary entry with
        | Some s => articles ++ [s]
        | None =>
            match description entry with
            | Some d => articles ++ [d]
            | None => articles
            end
        end in
      if (max_articles <=? Z.of_nat (length articles))%Z
      then (articles, true)
      else collect_entries max_articles articles rest
  end.

Fixpoint fetch_feeds (max_articles : Z) (articles : list pystr)
    (feeds : list pystr) : M (list pystr) :=
  match feeds with
  | [] => ret articles
  | feed :: rest =>
      let* r :=
        try_except
          (let* entries := feed_entries feed in
           ret (collect_entries max_articles articles entries))
          (fun e =>
             do print (u "RSS fetch error: " ++ exn_str e) then
             ret (articles, false)) in
      if snd r then ret (fst r) else fetch_feeds max_articles (fst r) rest
  end.

Definition fetch_articles_from_rss (self : RSSScraper) (max_articles : Z)
  : M (list pystr) :=
  fetch_feeds max_articles [] (rss_feeds self).

(** *** [clean_and_count_words] (lines 178-237) *)

Definition static_excluded : gset pystr :=
  list_to_set [
    u "français"; u "française"; u "francais"; u "américain";
    u "américaine"; u "americain";
    u "france"; u "états-unis"; u "etats-unis"; u "europe"; u "paris";
    u "washington";
    u "macron"; u "trump"; u "biden"; u "netanyahu"; u "israël";
    u "israel"; u "palestine";
    u "gaza"; u "ukraine"; u "russie"; u "russia"; u "poutine";
    u "zelensky"; u "onu";
    u "pays"; u "ville"; u "territoire"; u "gouvernement"; u "président";
    u "présidente";
    u "avoir"; u "être"; u "faire"; u "mettre"; u "dire"; u "aller";
    u "voir"; u "donner";
    u "bon"; u "mauvais"; u "beau"; u "grand"; u "petit"; u "important";
    u "nouveau";
    u "lundi"; u "mardi"; u "mercredi"; u "jeudi"; u "vendredi";
    u "samedi"; u "dimanche";
    u "janvier"; u "février"; u "mars"; u "avril"; u "mai"; u "juin";
    u "juillet"; u "août";
    u "septembre"; u "octobre"; u "novembre"; u "décembre";
    u "donc"; u "mais"; u "ou"; u "et"; u "car"; u "cependant";
    u "pourtant"; u "toutefois";
    u "ainsi"; u "alors"; u "puis"; u "ensuite"; u "également" ].

(** Line 188: the set of the stripped, lowercased non-blank lines. *)
Definition common_words_of (lines : list pystr) : gset pystr :=
  list_to_set
    (map (fun w => lower (strip w))
       (List.filter (fun w => match strip w with [] => false | _ => true end)
          lines)).

Definition content_pos : list pystr :=
  [u "NOUN"; u "VERB"; u "ADJ"; u "ADV"].

(** The condition of the comprehension (lines 231-235). *)
Definition keeps (excluded_words : gset pystr) (tok : Token) : bool :=
  is_alpha tok
  && (6 <? tok_len tok)
  && bool_decide (lower (lemma_ tok) ∈ advanced_lemmas df)
  && bool_decide (pos_ tok ∈ content_pos)
  && negb (bool_decide (lower (lemma_ tok) ∈ excluded_words)).

Definition candidate_of (tok : Token) : pystr * pystr :=
  (lower (lemma_ tok), pos_ tok).

(** Lines 186-211: the exclusion set built when the file is read in
    the world [t]. *)
Definition excluded_words (t : trace) : gset pystr :=
  let common_words :=
    match frequent_words W t with
    | Some lines => common_words_of lines
    | None => ∅
    end in
  static_excluded ∪ common_words.

(** [nlp(text)] (line 226) is taken to return the tokens of the text: the
    call is outside every [try], and an exception of the tagger is not
    modelled. *)
Definition clean_and_count_words (text : pystr)
  : M (list (pystr * pystr)) :=
  fun t =>
    match spacy_load W t with
    | None =>
        (do print (u "spaCy unavailable → skipping this article") then
         ret []) t
    | Some nlp =>
        ret (map candidate_of
               (List.filter (keeps (excluded_words t)) (nlp text))) t
    end.

(** *** [find_example_sentence] (lines 245-263) *)

(** The loop of lines 246-248. *)
Fixpoint find_local (word : pystr) (sentences : list pystr)
  : option pystr :=
  match sentences with
  | [] => None
  | s :: rest =>
      if contains word (lower s) then Some (strip s)
      else find_local word rest
  end.

(** The loop of lines 257-260. *)
Fixpoint scan_pages (pages : list value) : result (option pystr) :=
  match pages with
  | [] => Ok None
  | p :: rest =>
      (let* e := get p (u "extract") (JStr []) in
       let* s := as_str e in
       match before_first (N.eqb (ord ".")) s with
       | [] => scan_pages rest
       | ext => Ok (Some (ext ++ u "."))
       end)%result
  end.

(** Lines 256-260, on the response to the request. *)
Definition parse_extract (r : Response) : result (option pystr) :=
  (let* j := json r in
   let* q := get j (u "query") (JObj []) in
   let* pages := get q (u "pages") (JObj []) in
   let* ps := values pages in
   scan_pages ps)%result.

(** Lines 250-253. *)
Definition extract_url (word : pystr) : pystr :=
  u "https://fr.wiktionary.org/w/api.php?action=query&titles=" ++ word
    ++ u "&prop=extracts&exsentences=1&explaintext=1&format=json".

(** The body of the [try] (lines 250-260). *)
Definition source_extract (word : pystr) : M (option pystr) :=
  let* r := http_get (extract_url word) in
  if (status_code r =? 200)%Z then lift (parse_extract r) else ret None.

(** Line 263. *)
Definition default_sentence (word : pystr) : pystr :=
  u "Exemple par défaut : '" ++ word
    ++ u "' est un mot avancé à connaître.".

Definition find_example_sentence (self : RSSScraper) (word : pystr)
  : M pystr :=
  match find_local word (article_sentences self) with
  | Some s => ret s
  | None =>
      let* e := try_pass (source_extract word) in
      match e with
      | Some s => ret s
      | None => ret (default_sentence word)
      end
  end.

  (** *** [run] (lines 268-321) *)

(** The loop of lines 281-285; [n] is [len(articles)] and [i] the
    number of the article. *)
Fixpoint process_articles (n i : nat) (self : RSSScraper)
    (all_words : list (pystr * pystr)) (articles : list pystr)
  : M (RSSScraper * list (pystr * pystr)) :=
  match articles with
  | [] => ret (self, all_words)
  | txt :: rest =>
      do print (u "Processing article " ++ of_nat i ++ u "/" ++ of_nat n) then
      let self := {|
        rss_feeds := rss_feeds self;
        article_sentences := article_sentences self ++ split_sentences txt
      |} in
      let* words := clean_and_count_words txt in
      do emit (Sleep 1) then
      process_articles n (S i) self (all_words ++ words) rest
  end.

(** A row of [flashcards]: [(word, definition, sentence, english)]. *)
Record Flashcard : Type := {
  card_word : pystr;
  card_definition : pystr;
  card_sentence : pystr;
  card_english : value
}.

Definition placeholder : pystr := u "(définition indisponible)".

(** [requests.post("https://libretranslate.com/translate", ...).json()] *)
Definition post_translate (definition : pystr) : M value :=
  fun t =>
    (translate W t definition,
     t ++ [HttpPost (u "https://libretranslate.com/translate") definition]).

Definition nonempty (s : pystr) : bool :=
  match s with [] => false | _ :: _ => true end.

Definition tab : pystr := [9%N].
Definition newline : pystr := [10%N].

(** The loop of lines 300-316. *)
Fixpoint make_flashcards (self : RSSScraper) (flashcards : list Flashcard)
    (sample : list (pystr * pystr)) : M (list Flashcard) :=
  match sample with
  | [] => ret flashcards
  | (word, pos) :: rest =>
      let* d := fetch_definition word in
      let definition := if nonempty d then d else placeholder in
      let* sentence := find_example_sentence self word in
      let* english :=
        if nonempty definition
           && negb (bool_decide (definition = placeholder))
        then
          try_except
            (let* tr := post_translate definition in
             lift (get tr (u "translatedText") (JStr [])))
            (fun _ => ret (JStr []))
        else ret (JStr []) in
      do print (ljust 20 word ++ u " (" ++ pos ++ u ")" ++ newline
                  ++ u "    Definition: " ++ definition ++ newline
                  ++ u "    Example: " ++ sentence ++ newline) then
      make_flashcards self
        (flashcards ++ [{| card_word := word;
                           card_definition := definition;
                           card_sentence := sentence;
                           card_english := english |}])
        rest
  end.

Definition output_path : pystr := u "data/advanced_flashcard_words.tsv".

Definition output_header : pystr :=
  u "Word" ++ tab ++ u "Definition" ++ tab ++ u "Example" ++ tab
    ++ u "English" ++ newline.

Definition output_line (c : Flashcard) : pystr :=
  card_word c ++ tab ++ card_definition c ++ tab ++ card_sentence c ++ tab
    ++ format_value (card_english c) ++ newline.

(** Lines 292-293. *)
Definition uniques (all_words : list (pystr * pystr))
  : list (pystr * pystr) :=
  map fst (List.filter (fun kc => snd kc =? 1) (Counter all_words)).

(** Line 294. *)
Definition rarity_sample (all_words : list (pystr * pystr))
  : result (list (pystr * pystr)) :=
  (let* drawn := random_sample (randbelow W) (uniques all_words)
                   (min 30 (length (uniques all_words))) in
   Ok (sorted fst drawn))%result.

(** [self.run(max_articles)]: the scraper as the run leaves it.  Printing
    is taken to succeed; the output file is taken to be writable with the
    text of every record encodable, and is written in one go. *)
Definition run (self : RSSScraper) (max_articles : Z) : M RSSScraper :=
  let* articles := fetch_articles_from_rss self max_articles in
  match articles with
  | [] => do print (u "No articles fetched.") then ret self
  | _ :: _ =>
      let* st := process_articles (length articles) 1 self [] articles in
      let self := fst st in
      let all_words := snd st in
      do print (u "Total candidate tokens: " ++ of_nat (length all_words)) then
      match all_words with
      | [] => do print (u "Nothing to process.") then ret self
      | _ :: _ =>
          let* sample := lift (rarity_sample all_words) in
          do print (newline ++ repeat (ord "=") 60) then
          do print (u "30 RARE, LONG ADVANCED WORDS WITH POS, DEFINITIONS & SENTENCES") then
          do print (repeat (ord "=") 60) then
          let* flashcards := make_flashcards self [] sample in
          do emit (WriteFile output_path
                     (output_header ++ concat (map output_line flashcards))) then
          ret self
      end
  end.

End Program.

End Hello.
Import Hello.

(** ** The vocabulary of the specification *)

(** The condition of the specification on a lexicon row. *)
Definition qualifies (r : LexRow) : Prop :=
  (0 < freq_C2 r)%Q /\ (freq_total r < 100)%Q /\ 6 < length (word r).

(** The five predicates of the candidate extractor, for the exclusion set
    built in the world [t]. *)
Definition is_candidate `{Runtime} (W : World) (df : list LexRow) (t : trace)
    (tok : Token) : Prop :=
  is_alpha tok = true
  /\ 6 < tok_len tok
  /\ lower (lemma_ tok) ∈ advanced_lemmas df
  /\ pos_ tok ∈ [u "NOUN"; u "VERB"; u "ADJ"; u "ADV"]
  /\ lower (lemma_ tok) ∉ excluded_words W t.

#[export] Instance is_candidate_dec `{Runtime} W df t tok :
  Decision (is_candidate W df t tok).
Proof. unfold is_candidate. apply _. Defined.

(** The number of times [k] occurs in the batch [l]. *)
Definition occurrences {K : Type} `{EqDecision K} (k : K) (l : list K) : nat :=
  length (List.filter (fun x => bool_decide (x = k)) l).

(** [counts[k]], [0] for a missing key *)
Fixpoint count_of {K : Type} `{EqDecision K} (k : K)
    (counts : list (K * nat)) : nat :=
  match counts with
  | [] => 0
  | (k', n) :: rest => if decide (k' = k) then n else count_of k rest
  end.

(** [a <= b] on [str] *)
Definition str_le (a b : pystr) : Prop := ltb b a = false.

(** [key(x) <= key(y)] *)
Definition key_le {A : Type} (key : A -> pystr) (x y : A) : Prop :=
  str_le (key x) (key y).

(** Every remote source fails: no request is answered with a 200. *)
Definition remote_down (W : World) : Prop :=
  forall t url,
    match requests_get W t url with
    | Ok r => status_code r <> 200%Z
    | Raise _ => True
    end.

(** A value that counts as false in a condition: [None], [False], a zero,
    an empty string, an empty list or an empty object. *)
Definition falsy (v : value) : Prop :=
  v = JNull \/ v = JBool false \/ v = JInt 0
  \/ (exists q, v = JFloat q /\ (q == 0)%Q)
  \/ v = JStr [] \/ v = JArr [] \/ v = JObj [].

(** A meaning that offers no definition: it is an object, and
    - it has no definitions, or definitions that count as false, or
    - its definitions are a list whose first item is an object with no
      definition, or with a definition that counts as false. *)
Definition passed_over (m : value) : Prop :=
  exists members,
    m = JObj members
    /\ (lookup_key (u "definitions") members = None
        \/ (exists defs,
               lookup_key (u "definitions") members = Some defs
               /\ falsy defs)
        \/ (exists d0 ds,
               lookup_key (u "definitions") members
               = Some (JArr (JObj d0 :: ds))
               /\ (lookup_key (u "definition") d0 = None
                   \/ exists d,
                        lookup_key (u "definition") d0 = Some d
                        /\ falsy d))).

(** Source A succeeds with the definition [s]: the answer [r] has status
    200 and a body of the shape
    [[{"meanings": [..., {"definitions": [{"definition": s}, ...]}, ...]}, ...]]
    where every earlier meaning offers no definition and [s] is a string
    that is not empty: [s] is the first definition of the first meaning that
    offers one. *)
Definition dictionary_success (r : Response) (s : pystr) : Prop :=
  status_code r = 200%Z
  /\ exists entry others before m after d0 ds,
      json r = Ok (JArr (JObj entry :: others))
      /\ lookup_key (u "meanings") entry
         = Some (JArr (before ++ JObj m :: after))
      /\ Forall passed_over before
      /\ lookup_key (u "definitions") m = Some (JArr (JObj d0 :: ds))
      /\ lookup_key (u "definition") d0 = Some (JStr s)
      /\ s <> [].

(** Every remote source of definitions fails for [word]: each time one of
    the three is asked, it gives no definition - the request raises, is
    answered with a status other than 200, or is answered with a 200 whose
    body raises when read or holds nothing usable. *)
Definition definition_sources_fail `{Runtime} (W : World) (word : pystr)
  : Prop :=
  forall t d,
    fst (source_dictionary W word t) <> Ok (Some d)
    /\ fst (source_wiktionary W word t) <> Ok (Some d)
    /\ fst (source_tatoeba W word t) <> Ok (Some d).

(** The three lines printed before the words are resolved (lines 297-299). *)
Definition banner : list event :=
  [Print (newline ++ repeat (ord "=") 60);
   Print (u "30 RARE, LONG ADVANCED WORDS WITH POS, DEFINITIONS & SENTENCES");
   Print (repeat (ord "=") 60)].

(** The scraper after the loop over the one article [txt]. *)
Definition after_article (self : RSSScraper) (txt : pystr) : RSSScraper :=
  {| rss_feeds := rss_feeds self;
     article_sentences := article_sentences self ++ split_sentences txt |}.

(** What a run on one article with one candidate has done when it starts
    to resolve the word; [t1] is the trace when the article was fetched. *)
Definition one_candidate_trace (t1 : trace) : trace :=
  t1 ++ [Print (u "Processing article 1/1");
         Sleep 1;
         Print (u "Total candidate tokens: 1")]
     ++ banner.

(** The record of a word as line 315 prints it. *)
Definition record_lines (word pos definition sentence : pystr) : pystr :=
  ljust 20 word ++ u " (" ++ pos ++ u ")" ++ newline
    ++ u "    Definition: " ++ definition ++ newline
    ++ u "    Example: " ++ sentence ++ newline.

(** ** The vocabulary of the further properties *)

(** [m] appends to the trace only events satisfying [P]; a value it returns
    satisfies [Q], an exception that leaves it satisfies [E]. *)
Definition outcome {A} (P : event -> Prop) (Q : A -> Prop) (E : exn -> Prop)
    (m : M A) : Prop :=
  forall t, exists r new,
    m t = (r, t ++ new)
    /\ Forall P new
    /\ match r with Ok a => Q a | Raise e => E e end.

Definition any {A} (_ : A) : Prop := True.
Definition none {A} (_ : A) : Prop := False.

(** The requests of [fetch_definition]: the three sources in their order,
    as far as the chain went. *)
Definition definition_requests (word : pystr) (new : list event) : Prop :=
  new = [HttpGet (dictionary_url word)]
  \/ new = [HttpGet (dictionary_url word); HttpGet (wiktionary_url word)]
  \/ new = [HttpGet (dictionary_url word); HttpGet (wiktionary_url word);
            HttpGet (tatoeba_url word)].

(** The body of a [try] that does not return a result: it raises or
    runs to its end. *)
Definition yields_nothing (src : M (option pystr)) (t : trace) : Prop :=
  forall d, fst (src t) <> Ok (Some d).

(** What lines 161-164 append for an entry: its summary, or else its
    description. *)
Definition snippet_of (e : Entry) : option pystr :=
  match summary e with
  | Some s => Some s
  | None => description e
  end.

(** The feeds parsed, in the order of the trace. *)
Definition parsed_feeds (events : list event) : list pystr :=
  flat_map (fun e => match e with FeedParse f => [f] | _ => [] end) events.

(** An event of the corpus source: a feed is parsed, or its error printed. *)
Definition feed_event (e : event) : Prop :=
  (exists f, e = FeedParse f)
  \/ (exists msg, e = Print (u "RSS fetch error: " ++ msg)).

(** A snippet that some feed of [feeds] held. *)
Definition from_feeds (W : World) (feeds : list pystr) (a : pystr) : Prop :=
  exists t0 feed entries e,
    feed ∈ feeds /\ feedparser_parse W t0 feed = Ok entries
    /\ e ∈ entries /\ snippet_of e = Some a.

(** An event of a run before the output file is written: never a write,
    and a translation request only for a definition that is neither empty
    nor the placeholder. *)
Definition pipeline_event (e : event) : Prop :=
  match e with
  | WriteFile _ _ => False
  | HttpPost url q =>
      url = u "https://libretranslate.com/translate"
      /\ q <> [] /\ q <> placeholder
  | _ => True
  end.

(** An event of the loop over the articles. *)
Definition quiet_event (e : event) : Prop :=
  (exists line, e = Print line) \/ e = Sleep 1.

(** A candidate as the extractor lets it through. *)
Definition admitted `{Runtime} (df : list LexRow) (c : pystr * pystr) : Prop :=
  (exists r, r ∈ df /\ qualifies r /\ fst c = lower (word r))
  /\ (fst c ∉ static_excluded)
  /\ snd c ∈ content_pos.

(** A record as line 316 builds it. *)
Definition well_formed_card (c : Flashcard) : Prop :=
  card_definition c <> []
  /\ (card_definition c = placeholder -> card_english c = JStr []).

(** The exception of line 128. *)
Definition unbound_lexicon (W : World) (e : exn) : Prop :=
  e = NameError (u "lexicon_defs") /\ lexicon_defs W = None.

(** The event is a write to a file. *)
Definition is_write (e : event) : Prop :=
  exists path content, e = WriteFile path content.

(** No two neighbours of [s] both satisfy [p]; [prev] tells whether the
    code point before [s] does. *)
Fixpoint apart (p : N -> bool) (prev : bool) (s : pystr) : Prop :=
  match s with
  | [] => True
  | c :: rest =>
      if p c then prev = false /\ apart p true rest
      else apart p false rest
  end.

(** [s] holds two neighbours that both satisfy [p]. *)
Definition has_pair (p : N -> bool) (s : pystr) : Prop :=
  exists pre a b post,
    s = pre ++ a :: b :: post /\ p a = true /\ p b = true.

(** The apostrophe, as the class of ['']+ tests it. *)
Definition is_quote : N -> bool := N.eqb (ord "'").

(** Text without markup. *)
Definition plain (text : pystr) : Prop :=
  forall c, c ∈ text ->
    c <> ord "{" /\ c <> ord "[" /\ c <> ord "'"
    /\ (is_space c = true -> c = ord " ").

(** ** A runtime and worlds to run the program in *)

Module Examples.

(** [str.lower] on the Basic Latin and Latin-1 letters, which is all the
    strings below contain. *)
Definition lower_cp (c : N) : N :=
  if ((65 <=? c) && (c <=? 90))%N then (c + 32)%N
  else if ((192 <=? c) && (c <=? 222) && negb (c =? 215))%N then (c + 32)%N
  else c.

(** [str()] of the values the examples format. *)
Definition repr_small (v : value) : pystr :=
  match v with
  | JNull => u "None"
  | JBool true => u "True"
  | JBool false => u "False"
  | JInt (Z.pos p) => of_nat (Pos.to_nat p)
  | JInt Z0 => u "0"
  | JInt (Z.neg p) => u "-" ++ of_nat (Pos.to_nat p)
  | _ => []
  end.

Definition latin_runtime : Runtime := {|
  lower := map lower_cp;
  repr := repr_small
|}.

Definition connection_error {A} : result A :=
  Raise (External (u "ConnectionError")).

(** A world without network: every request raises.  Each feed has one
    entry, whose summary is [snippet]; the tagger gives [tokens] for every
    text; there is no list of frequent words; [defs] is the binding of
    [lexicon_defs]. *)
Definition stub_world (snippet : pystr) (tokens : list Token)
    (defs : option (gmap pystr pystr)) : World := {|
  requests_get := fun _ _ => connection_error;
  translate := fun _ _ => connection_error;
  feedparser_parse :=
    fun _ _ => Ok [{| summary := Some snippet; description := None |}];
  spacy_load := fun _ => Some (fun _ => tokens);
  frequent_words := fun _ => None;
  randbelow := fun _ _ => 0;
  lexicon_defs := defs
|}.

(** The rows of section 8 of the specification and three more.  FLELex
    keys its rows by word and tag, so one word can have two rows. *)
Definition row (w : string) (total c2 : Q) : LexRow :=
  {| word := u w; freq_total := total; freq_C2 := c2 |}.

Definition xenophobie : LexRow := row "xénophobie" 5 2.
Definition le : LexRow := row "le" 50000 3.
Definition gouvernemental : LexRow := row "gouvernemental" 150 1.
Definition gouvernemental_rare : LexRow := row "gouvernemental" 5 2.
Definition degringoler : LexRow := row "dégringoler" 3 1.
Definition gouvernement : LexRow := row "gouvernement" 40 1.

Definition flelex : list LexRow :=
  [xenophobie; le; gouvernemental; degringoler; gouvernement].

Definition token (lemma pos : string) (alpha : bool) (len : nat) : Token :=
  {| lemma_ := u lemma; pos_ := u pos; is_alpha := alpha; tok_len := len |}.

(** One token that passes, and for each predicate one that fails it alone. *)
Definition tok_ok : Token := token "xénophobie" "NOUN" true 10.
Definition tok_not_alpha : Token := token "xénophobie" "NOUN" false 10.
Definition tok_short : Token := token "xénophobie" "NOUN" true 6.
Definition tok_unlisted : Token := token "progresser" "VERB" true 10.
Definition tok_propn : Token := token "xénophobie" "PROPN" true 10.
Definition tok_excluded : Token := token "gouvernement" "NOUN" true 12.

Definition one_failure_each : list Token :=
  [tok_not_alpha; tok_short; tok_ok; tok_unlisted; tok_propn; tok_excluded].

Definition tok_degringoler : Token := token "dégringoler" "VERB" true 12.

Definition prices : pystr := u "Les prix dégringolent.".

(** The module as it is written: nothing binds [lexicon_defs]. *)
Definition offline : World := stub_world prices [] None.
Definition as_written : World := stub_world prices [tok_degringoler] None.

(** The same world with [lexicon_defs] bound to an empty mapping. *)
Definition with_lexicon : World := stub_world prices [tok_degringoler] (Some ∅).

(** A document in which the only candidate occurs twice. *)
Definition twice : World :=
  stub_world (u "La xénophobie nourrit la xénophobie.") [tok_ok; tok_ok] None.

Definition hostility : pystr := u "  Hostilité envers les étrangers. ".

Definition dictionary_reply : Response := {|
  status_code := 200;
  text := [];
  json :=
    Ok (JArr
          [JObj
             [(u "word", JStr (u "xénophobie"));
              (u "meanings",
               JArr
                 [JObj [(u "partOfSpeech", JStr (u "adjectif"));
                        (u "definitions", JArr [])];
                  JObj [(u "partOfSpeech", JStr (u "nom"));
                        (u "definitions",
                         JArr [JObj [(u "definition", JStr hostility)]])]])]])
|}.

Definition extract_reply : Response := {|
  status_code := 200;
  text := [];
  json :=
    Ok (JObj
          [(u "query",
            JObj
              [(u "pages",
                JObj
                  [(u "42",
                    JObj [(u "extract",
                           JStr (u "Capitale de la France. Ville."))])])])])
|}.

(** A world in which every request is answered by [reply]. *)
Definition answering (reply : Response) : World := {|
  requests_get := fun _ _ => Ok reply;
  translate := fun _ _ => connection_error;
  feedparser_parse := fun _ _ => Ok [];
  spacy_load := fun _ => None;
  frequent_words := fun _ => None;
  randbelow := fun _ _ => 0;
  lexicon_defs := None
|}.

Definition scraper_with (sentences : list pystr) : RSSScraper :=
  {| rss_feeds := rss_feeds new_scraper; article_sentences := sentences |}.

Definition paris_sentence : pystr := u "Paris est belle.".

(** The first feed of the scraper. *)
Definition france24 : pystr := u "https://www.france24.com/fr/rss".

(** The candidates of the end-to-end scenario of section 8. *)
Definition scenario : list (pystr * pystr) :=
  [(u "environnement", u "NOUN"); (u "considérable", u "ADJ");
   (u "dégringoler", u "VERB"); (u "considérable", u "ADJ")].

(** A world in which only the request for [url] is answered, by [reply];
    every other request raises. *)
Definition only_at (url : pystr) (reply : Response) : World := {|
  requests_get :=
    fun _ url' => if decide (url' = url) then Ok reply else connection_error;
  translate := fun _ _ => connection_error;
  feedparser_parse := fun _ _ => Ok [];
  spacy_load := fun _ => None;
  frequent_words := fun _ => None;
  randbelow := fun _ _ => 0;
  lexicon_defs := None
|}.

Definition wiki_markup : pystr :=
  u "== Nom commun ==" ++ newline
    ++ u "# {{lexique|politique|fr}} ''[[peur|Crainte]]'' des  [[étranger]]s. Par extension; rejet."
    ++ newline.

Definition wiki_reply : Response := {|
  status_code := 200;
  text := wiki_markup;
  json := Raise (External (u "JSONDecodeError"))
|}.

Definition tatoeba_reply : Response := {|
  status_code := 200;
  text := [];
  json :=
    Ok (JObj
          [(u "results",
            JArr [JObj [(u "id", JInt 7);
                        (u "text", JStr (u " La xénophobie recule. "))]])])
|}.

(** A world in which spaCy cannot be loaded; each feed has one entry, with
    a description and no summary. *)
Definition no_tagger : World := {|
  requests_get := fun _ _ => connection_error;
  translate := fun _ _ => connection_error;
  feedparser_parse :=
    fun _ _ => Ok [{| summary := None; description := Some prices |}];
  spacy_load := fun _ => None;
  frequent_words := fun _ => None;
  randbelow := fun _ _ => 0;
  lexicon_defs := None
|}.

(** The lines of a file of frequent words: one word, with a capital and
    with blanks around it, and a blank line. *)
Definition frequent_lines : list pystr :=
  [u "  Xénophobie " ++ newline; newline].

(** A world in which the file of frequent words lists the one word that
    would pass. *)
Definition listed : World := {|
  requests_get := fun _ _ => connection_error;
  translate := fun _ _ => connection_error;
  feedparser_parse := fun _ _ => Ok [];
  spacy_load := fun _ => Some (fun _ => [tok_ok; tok_degringoler]);
  frequent_words := fun _ => Some frequent_lines;
  randbelow := fun _ _ => 0;
  lexicon_defs := None
|}.

(** A world in which every request is answered by the dictionary's reply
    and the translation service answers; each feed has one entry, in which
    the tagger finds the one candidate. *)
Definition translating : World := {|
  requests_get := fun _ _ => Ok dictionary_reply;
  translate :=
    fun _ _ =>
      Ok (JObj [(u "translatedText",
                 JStr (u "Hostility towards foreigners."))]);
  feedparser_parse :=
    fun _ _ =>
      Ok [{| summary := Some (u "La xénophobie progresse.");
             description := None |}];
  spacy_load := fun _ => Some (fun _ => [tok_ok]);
  frequent_words := fun _ => None;
  randbelow := fun _ _ => 0;
  lexicon_defs := None
|}.

(** An answer of the dictionary in which three meanings offer no
    definition before one does: an empty first definition, definitions
    that are [null], and a first definition without the member. *)
Definition patchy_reply : Response := {|
  status_code := 200;
  text := [];
  json :=
    Ok (JArr
          [JObj
             [(u "meanings",
               JArr
                 [JObj [(u "definitions",
                         JArr [JObj [(u "definition", JStr [])]])];
                  JObj [(u "definitions", JNull)];
                  JObj [(u "definitions",
                         JArr [JObj [(u "example", JStr (u "Sans objet."))]])];
                  JObj [(u "definitions",
                         JArr [JObj [(u "definition", JStr hostility)]])]])]])
|}.

(** An answer with status 200 that holds nothing a source can use: no
    text, and an empty object as its body. *)
Definition empty_reply : Response := {|
  status_code := 200;
  text := [];
  json := Ok (JObj [])
|}.

(** The module as it is written, in a world where every request is
    answered with a 200 that holds nothing usable; each feed has one entry,
    in which the tagger finds one candidate. *)
Definition unusable : World := {|
  requests_get := fun _ _ => Ok empty_reply;
  translate := fun _ _ => connection_error;
  feedparser_parse :=
    fun _ _ => Ok [{| summary := Some prices; description := None |}];
  spacy_load := fun _ => Some (fun _ => [tok_degringoler]);
  frequent_words := fun _ => None;
  randbelow := fun _ _ => 0;
  lexicon_defs := None
|}.

(** An answer of the sentence search whose first result has no text. *)
Definition blank_reply : Response := {|
  status_code := 200;
  text := [];
  json := Ok (JObj [(u "results", JArr [JObj [(u "id", JInt 7)]])])
|}.

(** The module as it is written, in a world where only the sentence search
    is answered, by a result without text. *)
Definition blank_text : World := {|
  requests_get :=
    fun _ url =>
      if decide (url = tatoeba_url (u "dégringoler")) then Ok blank_reply
      else connection_error;
  translate := fun _ _ => connection_error;
  feedparser_parse :=
    fun _ _ => Ok [{| summary := Some prices; description := None |}];
  spacy_load := fun _ => Some (fun _ => [tok_degringoler]);
  frequent_words := fun _ => None;
  randbelow := fun _ _ => 0;
  lexicon_defs := None
|}.

End Examples.
Import Examples.

(** * Properties *)

(** ** LexiconFilter *)

Lemma Qltb_lt a b : Qltb a b = true <-> (a < b)%Q.
Proof.
  unfold Qltb. rewrite negb_true_iff, <- not_true_iff_false, Qle_bool_iff.
  split; [apply Qnot_le_lt | apply Qlt_not_le].
Qed.

Lemma rare_mask_qualifies r : rare_mask r = true <-> qualifies r.
Proof.
  unfold rare_mask, qualifies.
  rewrite !andb_true_iff, !Qltb_lt, Nat.ltb_lt. tauto.
Qed.

Section LexiconFilter.

Context `{Runtime}.

(** C4 (amended).  A string is in the advanced-lemma set if and only if it
    is the lowercased word of some lexicon row with [freq_C2 > 0],
    [freq_total < 100] and a word of more than 6 characters.  So the
    lowercased word of every qualifying row is in the set, every member is
    the lowercased form of such a word, and the lowercased word of a row
    that does not qualify is in the set exactly when another row with the
    same lowercased word qualifies. *)
Theorem advanced_lemmas_members (df : list LexRow) (s : pystr) :
  s ∈ advanced_lemmas df <->
  exists r, r ∈ df /\ qualifies r /\ s = lower (word r).
Proof.
  unfold advanced_lemmas.
  rewrite elem_of_list_to_set, list_elem_of_In, in_map_iff.
  split.
  - intros (r & <- & Hr). apply filter_In in Hr as [Hin Hm].
    exists r. rewrite list_elem_of_In, <- rare_mask_qualifies. auto.
  - intros (r & Hin & Hq & ->). exists r. split; [done|].
    apply filter_In. rewrite <- list_elem_of_In, rare_mask_qualifies. auto.
Qed.

End LexiconFilter.

(** ** CandidateExtractor *)

Lemma filter_bool_decide {A} (f : A -> bool) (P : A -> Prop)
    `{forall x, Decision (P x)} (l : list A) :
  (forall x, f x = true <-> P x) -> List.filter f l = filter P l.
Proof.
  intros Hf. induction l as [|x l IH]; [done|].
  cbn [List.filter]. rewrite filter_cons, IH.
  destruct (decide (P x)) as [HP|HP], (f x) eqn:Hfx; try done.
  - apply Hf in HP. congruence.
  - apply Hf in Hfx. done.
Qed.

Section CandidateExtractor.

Context `{Runtime} (W : World) (df : list LexRow).

Lemma keeps_is_candidate t tok :
  keeps df (excluded_words W t) tok = true <-> is_candidate W df t tok.
Proof.
  unfold keeps, is_candidate, content_pos.
  rewrite !andb_true_iff, negb_true_iff, !bool_decide_eq_true,
    bool_decide_eq_false, Nat.ltb_lt.
  tauto.
Qed.

(** C5.  With the tagger available, the candidates of a text are, in token
    order, exactly the tokens for which all five predicates hold - the
    token is alphabetic, its raw length exceeds 6, its lowercased lemma is
    in the advanced-lemma set, its part of speech is NOUN, VERB, ADJ or
    ADV, and its lowercased lemma is not in the exclusion set - each as the
    pair of its lowercased lemma and its part of speech; a token failing
    any one of them is left out. *)
Theorem candidate_iff_five_predicates (text : pystr) (t : trace)
    (nlp : pystr -> list Token) :
  spacy_load W t = Some nlp ->
  clean_and_count_words W df text t
  = (Ok (map candidate_of (filter (is_candidate W df t) (nlp text))), t).
Proof.
  intros Hnlp. unfold clean_and_count_words. rewrite Hnlp. unfold ret.
  rewrite (filter_bool_decide _ (is_candidate W df t)); [done|].
  apply keeps_is_candidate.
Qed.

End CandidateExtractor.

(** ** RaritySampler *)

(** *** The order of [str] *)

Lemma ltb_irrefl a : ltb a a = false.
Proof.
  induction a as [|x a IH]; [done|]. cbn.
  rewrite N.ltb_irrefl, N.eqb_refl, IH. done.
Qed.

Lemma ltb_trans a b c : ltb a b = true -> ltb b c = true -> ltb a c = true.
Proof.
  revert b c. induction a as [|x a IH]; intros [|y b] [|z c]; cbn; try done.
  rewrite !orb_true_iff, !andb_true_iff, !N.ltb_lt, !N.eqb_eq.
  intros [Hxy|[-> Hab]] [Hyz|[-> Hbc]]; try (left; lia).
  right. split; [done|]. eapply IH; eassumption.
Qed.

Lemma ltb_total a b : ltb a b = false -> ltb b a = false -> a = b.
Proof.
  revert b. induction a as [|x a IH]; intros [|y b]; cbn; try done.
  rewrite !orb_false_iff, !andb_false_iff, !N.ltb_ge, !N.eqb_neq.
  intros [Hxy Hab] [Hyx Hba].
  assert (x = y) by lia. subst y.
  f_equal. apply IH; [destruct Hab|destruct Hba]; done.
Qed.

Lemma str_le_trans a b c : str_le a b -> str_le b c -> str_le a c.
Proof.
  unfold str_le. intros Hab Hbc.
  destruct (ltb c a) eqn:Hca; [|done].
  destruct (ltb a b) eqn:Hab'.
  - rewrite (ltb_trans c a b) in Hbc; done.
  - assert (a = b) by (apply ltb_total; done). subst. congruence.
Qed.

(** *** [sorted] *)

Section SortedFacts.

Context {A : Type} (key : A -> pystr).

Lemma insert_by_perm x l : insert_by key x l ≡ₚ x :: l.
Proof.
  induction l as [|y l IH]; [done|]. cbn.
  destruct (ltb (key y) (key x)); [|done].
  rewrite IH. apply Permutation_swap.
Qed.

Lemma sorted_perm l : sorted key l ≡ₚ l.
Proof.
  induction l as [|x l IH]; [done|]. cbn.
  rewrite insert_by_perm. by rewrite IH.
Qed.

Lemma insert_by_sorted x l :
  StronglySorted (key_le key) l ->
  StronglySorted (key_le key) (insert_by key x l).
Proof.
  induction 1 as [|y l Hs IH Hall]; cbn.
  - constructor; [constructor|constructor].
  - destruct (ltb (key y) (key x)) eqn:Hyx.
    + constructor; [done|].
      rewrite List.Forall_forall. intros z Hz.
      apply list_elem_of_In in Hz. rewrite insert_by_perm in Hz.
      apply elem_of_cons in Hz as [->|Hz].
      * unfold key_le, str_le.
        destruct (ltb (key x) (key y)) eqn:Hxy; [|done].
        pose proof (ltb_trans _ _ _ Hxy Hyx) as Hxx.
        by rewrite ltb_irrefl in Hxx.
      * rewrite List.Forall_forall in Hall. apply Hall.
        by apply list_elem_of_In.
    + constructor; [by constructor|].
      constructor; [done|].
      rewrite List.Forall_forall in *. intros z Hz.
      eapply str_le_trans; [exact Hyx|]. by apply Hall.
Qed.

Lemma sorted_sorted l : StronglySorted (key_le key) (sorted key l).
Proof.
  induction l as [|x l IH]; cbn; [constructor|].
  by apply insert_by_sorted.
Qed.

End SortedFacts.

(** *** [Counter] *)

Section CounterFacts.

Context {K : Type} `{EqDecision K}.

Lemma occurrences_cons (k x : K) (l : list K) :
  occurrences k (x :: l)
  = (if decide (x = k) then 1 else 0) + occurrences k l.
Proof.
  unfold occurrences. cbn. destruct (decide (x = k)).
  - by rewrite bool_decide_eq_true_2.
  - by rewrite bool_decide_eq_false_2.
Qed.

Lemma count_of_add (k x : K) (counts : list (K * nat)) :
  count_of k (counter_add counts x)
  = (if decide (x = k) then 1 else 0) + count_of k counts.
Proof.
  induction counts as [|[k' n] rest IH]; cbn.
  - by destruct (decide (x = k)).
  - destruct (decide (k' = x)) as [->|Hne]; cbn.
    + by destruct (decide (x = k)).
    + destruct (decide (k' = k)) as [->|]; [|done].
      by rewrite decide_False by done.
Qed.

Lemma keys_add (x : K) (counts : list (K * nat)) :
  map fst (counter_add counts x)
  = if bool_decide (x ∈ map fst counts) then map fst counts
    else map fst counts ++ [x].
Proof.
  induction counts as [|[k' n] rest IH]; cbn; [done|].
  destruct (decide (k' = x)) as [->|Hne]; cbn.
  - rewrite bool_decide_eq_true_2; [done|left].
  - rewrite IH. destruct (bool_decide (x ∈ map fst rest)) eqn:Hin.
    + apply bool_decide_eq_true in Hin.
      rewrite bool_decide_eq_true_2; [done|by right].
    + apply bool_decide_eq_false in Hin.
      rewrite bool_decide_eq_false_2; [done|].
      intros [?|?]%elem_of_cons; congruence.
Qed.

Lemma keys_add_NoDup (x : K) (counts : list (K * nat)) :
  NoDup (map fst counts) -> NoDup (map fst (counter_add counts x)).
Proof.
  intros Hnd. rewrite keys_add. case_bool_decide; [done|].
  apply NoDup_app. split; [done|]. split; [|apply NoDup_singleton].
  intros y Hy ->%list_elem_of_singleton. done.
Qed.

Lemma positive_add (x : K) (counts : list (K * nat)) :
  Forall (fun kc => 0 < snd kc) counts ->
  Forall (fun kc => 0 < snd kc) (counter_add counts x).
Proof.
  induction 1 as [|[k' n] rest Hn Hrest IH]; cbn.
  - constructor; [cbn; lia|constructor].
  - destruct (decide (k' = x)); constructor; cbn in *; try done; lia.
Qed.

Lemma fold_counter_add (l : list K) (counts : list (K * nat)) :
  let result := fold_left counter_add l counts in
  (NoDup (map fst counts) -> NoDup (map fst result))
  /\ (Forall (fun kc => 0 < snd kc) counts ->
      Forall (fun kc => 0 < snd kc) result)
  /\ forall k, count_of k result = occurrences k l + count_of k counts.
Proof.
  revert counts. induction l as [|x l IH]; intros counts; cbn [fold_left].
  - cbv zeta. auto.
  - cbv zeta. destruct (IH (counter_add counts x)) as (Hnd & Hpos & Hcount).
    split; [|split].
    + intros. by apply Hnd, keys_add_NoDup.
    + intros. by apply Hpos, positive_add.
    + intros k. rewrite Hcount, count_of_add, occurrences_cons. lia.
Qed.

Lemma count_of_elem (k : K) (n : nat) (counts : list (K * nat)) :
  NoDup (map fst counts) ->
  (k, n) ∈ counts -> count_of k counts = n.
Proof.
  induction counts as [|[k' n'] rest IH]; cbn.
  - intros _ Hin. by apply elem_of_nil in Hin.
  - intros [Hnotin Hnd]%NoDup_cons [Heq|Hin]%elem_of_cons.
    + injection Heq as -> ->. by rewrite decide_True.
    + destruct (decide (k' = k)) as [->|]; [|by apply IH].
      exfalso. apply Hnotin.
      apply list_elem_of_fmap. by exists (k, n).
Qed.

Lemma elem_of_count_of (k : K) (counts : list (K * nat)) :
  0 < count_of k counts -> (k, count_of k counts) ∈ counts.
Proof.
  induction counts as [|[k' n'] rest IH]; cbn; [lia|].
  destruct (decide (k' = k)) as [->|]; [left|right; auto].
Qed.

(** [Counter]: each key once, with the number of its occurrences. *)
Lemma Counter_spec (l : list K) :
  NoDup (map fst (Counter l))
  /\ forall k n, (k, n) ∈ Counter l <-> n = occurrences k l /\ 0 < n.
Proof.
  destruct (fold_counter_add l []) as (Hnd & Hpos & Hcount).
  fold (Counter l) in *. cbn in Hcount.
  specialize (Hnd (NoDup_nil_2)). specialize (Hpos (Forall_nil_2 _)).
  split; [done|]. intros k n. split.
  - intros Hin. split.
    + rewrite <- (count_of_elem k n (Counter l)) by done.
      rewrite Hcount. lia.
    + rewrite List.Forall_forall in Hpos.
      apply list_elem_of_In, Hpos in Hin. done.
  - intros [-> Hn]. specialize (Hcount k). rewrite Nat.add_0_r in Hcount.
    rewrite <- Hcount. apply elem_of_count_of. lia.
Qed.

Lemma occurrences_filter_le (P : K -> bool) (k : K) (l : list K) :
  occurrences k (List.filter P l) <= occurrences k l.
Proof.
  induction l as [|x l IH]; [done|]. cbn [List.filter].
  destruct (P x); rewrite ?occurrences_cons; lia.
Qed.

Lemma occurrences_filter_false (P : K -> bool) (k : K) (l : list K) :
  P k = false -> occurrences k (List.filter P l) = 0.
Proof.
  intros HP. induction l as [|x l IH]; [done|]. cbn [List.filter].
  destruct (P x) eqn:HPx; [|done].
  rewrite occurrences_cons, IH. rewrite decide_False; [done|congruence].
Qed.

Lemma occurrences_positive (k : K) (l : list K) :
  k ∈ l <-> 0 < occurrences k l.
Proof.
  induction l as [|x l IH].
  - split; [intros []%elem_of_nil|cbn; lia].
  - rewrite occurrences_cons, elem_of_cons, IH.
    destruct (decide (x = k)); split; try lia; auto.
    intros [?|?]; [congruence|done].
Qed.

Lemma NoDup_occurrences (l : list K) :
  (forall k, occurrences k l <= 1) -> NoDup l.
Proof.
  induction l as [|x l IH]; intros Hocc; [constructor|].
  constructor.
  - intros Hin%occurrences_positive. specialize (Hocc x).
    rewrite occurrences_cons, decide_True in Hocc by done. lia.
  - apply IH. intros k. specialize (Hocc k).
    rewrite occurrences_cons in Hocc. lia.
Qed.

Lemma NoDup_keys_filter {V} (f : K * V -> bool) (l : list (K * V)) :
  NoDup (map fst l) -> NoDup (map fst (List.filter f l)).
Proof.
  induction l as [|x l IH]; [done|]. cbn.
  intros [Hnotin Hnd]%NoDup_cons. destruct (f x); cbn; [|auto].
  constructor; [|auto]. intros Hin. apply Hnotin.
  apply list_elem_of_fmap in Hin as (y & -> & Hy).
  apply list_elem_of_In, filter_In in Hy as [Hy _].
  apply list_elem_of_fmap. exists y. by rewrite list_elem_of_In.
Qed.

End CounterFacts.

(** *** [uniques]: the pairs counted once *)

Lemma uniques_elem (l : list (pystr * pystr)) (p : pystr * pystr) :
  p ∈ uniques l <-> occurrences p l = 1.
Proof.
  destruct (Counter_spec l) as [_ Hspec]. unfold uniques.
  rewrite list_elem_of_fmap. split.
  - intros ([k' n] & -> & Hin).
    apply list_elem_of_In, filter_In in Hin as [Hin Hn].
    cbn in *. apply Nat.eqb_eq in Hn as ->.
    apply list_elem_of_In, Hspec in Hin. lia.
  - intros Hocc. exists (p, 1). split; [done|].
    apply list_elem_of_In, filter_In. split; [|done].
    apply list_elem_of_In, Hspec. lia.
Qed.

Lemma uniques_NoDup (l : list (pystr * pystr)) : NoDup (uniques l).
Proof. apply NoDup_keys_filter, Counter_spec. Qed.

Lemma uniques_length (l : list (pystr * pystr)) :
  length (uniques l)
  = length (List.filter (fun p => occurrences p l =? 1) l).
Proof.
  apply Permutation_length, NoDup_Permutation.
  - apply uniques_NoDup.
  - apply NoDup_occurrences. intros k.
    destruct (occurrences k l =? 1) eqn:Hk.
    + apply Nat.eqb_eq in Hk. etrans; [apply occurrences_filter_le|lia].
    + rewrite occurrences_filter_false; [lia|done].
  - intros k. rewrite uniques_elem, list_elem_of_In, filter_In, Nat.eqb_eq.
    split; [|tauto]. intros Hk. split; [|done].
    apply list_elem_of_In, occurrences_positive. lia.
Qed.

Lemma uniques_nil (all_words : list (pystr * pystr)) :
  (forall p, occurrences p all_words <> 1) -> uniques all_words = [].
Proof.
  intros Hocc. destruct (uniques all_words) as [|p l] eqn:Hu; [done|].
  destruct (Hocc p). apply uniques_elem. rewrite Hu. left.
Qed.

(** *** [random.sample] *)

Section SampleFacts.

Context {A : Type} (rb : nat -> nat -> nat).

Lemma sample_step_perm (pool : list A) (j : nat) (x y : A) :
  pool !! j = Some x -> last pool = Some y ->
  x :: take (length pool - 1) (<[j := y]> pool) ≡ₚ pool.
Proof.
  intros Hx [init ->]%last_Some.
  rewrite length_app. cbn [length].
  replace (length init + 1 - 1) with (length init) by lia.
  destruct (decide (j < length init)) as [Hlt|Hge].
  - rewrite lookup_app_l in Hx by done.
    rewrite insert_app_l by done.
    rewrite take_app_length' by (by rewrite length_insert).
    rewrite insert_take_drop by done.
    rewrite <- (take_drop_middle init j x Hx) at 3.
    rewrite <- app_assoc. cbn.
    rewrite <- !Permutation_middle. by rewrite app_nil_r.
  - assert (Hlen : j < length (init ++ [y]))
      by (eapply lookup_lt_Some; eassumption).
    rewrite length_app in Hlen. cbn in Hlen.
    assert (j = length init) as -> by lia.
    rewrite list_insert_id.
    2:{ rewrite Hx. rewrite lookup_app_r in Hx by lia.
        rewrite Nat.sub_diag in Hx. cbn in Hx. congruence. }
    rewrite take_app_length.
    rewrite lookup_app_r in Hx by lia.
    rewrite Nat.sub_diag in Hx. injection Hx as ->.
    apply Permutation_cons_append.
Qed.

(** The sample is drawn from the pool without replacement. *)
Lemma sample_from_submseteq (i : nat) (pool : list A) (k : nat) :
  sample_from rb i pool k ⊆+ pool.
Proof.
  revert i pool. induction k as [|k IH]; intros i pool; cbn.
  - apply submseteq_nil_l.
  - destruct (pool !! _) as [x|] eqn:Hx; [|apply submseteq_nil_l].
    destruct (last pool) as [y|] eqn:Hy; [|apply submseteq_nil_l].
    etrans; [apply submseteq_skip, IH|].
    apply Permutation_submseteq, sample_step_perm; done.
Qed.

Lemma sample_from_length (i : nat) (pool : list A) (k : nat) :
  k <= length pool -> length (sample_from rb i pool k) = k.
Proof.
  revert i pool. induction k as [|k IH]; intros i pool Hk; cbn; [done|].
  assert (Hj : rb i (length pool) mod length pool < length pool)
    by (apply Nat.mod_upper_bound; lia).
  destruct (lookup_lt_is_Some_2 pool _ Hj) as [x ->].
  destruct (last pool) as [y|] eqn:Hy.
  - cbn. f_equal. apply IH.
    rewrite length_take, length_insert. lia.
  - apply last_None in Hy. subst pool. cbn in Hk. lia.
Qed.

End SampleFacts.

(** C6.  For every batch of candidates and every random generator, the
    rarity sampler returns a sample; it contains only pairs that occur
    exactly once in the whole batch, its size is the minimum of 30 and the
    number of such pairs, and it is sorted by lemma ascending. *)
Theorem rarity_sample_spec (W : World) (all_words : list (pystr * pystr)) :
  exists sample,
    rarity_sample W all_words = Ok sample
    /\ (forall p, p ∈ sample -> occurrences p all_words = 1)
    /\ length sample
       = min 30 (length (List.filter
                           (fun p => occurrences p all_words =? 1)
                           all_words))
    /\ StronglySorted (key_le fst) sample.
Proof.
  unfold rarity_sample, random_sample.
  set (k := min 30 (length (uniques all_words))).
  assert (Hk : k <= length (uniques all_words)) by lia.
  apply Nat.leb_le in Hk as Hkb. rewrite Hkb. cbn [rbind].
  eexists. split; [reflexivity|]. split; [|split].
  - intros p Hp. rewrite sorted_perm in Hp.
    apply uniques_elem.
    eapply elem_of_submseteq; [exact Hp|apply sample_from_submseteq].
  - rewrite sorted_perm, sample_from_length by done.
    unfold k. by rewrite uniques_length.
  - apply sorted_sorted.
Qed.

(** ** DefinitionResolver *)

Section DefinitionResolver.

Context `{Runtime} (W : World).

(** The values that count as false are those the conditions of the program
    take for false. *)
Lemma falsy_truthy (v : value) : falsy v <-> truthy v = false.
Proof.
  unfold falsy. split.
  - intros [->|[->|[->|[(q & -> & Hq)|[->|[->| ->]]]]]]; try reflexivity.
    cbn [truthy]. apply negb_false_iff. by apply Qeq_bool_iff.
  - destruct v as [|b|z|q|s|items|members]; cbn [truthy].
    + auto.
    + intros ->. auto.
    + intros Hz. apply negb_false_iff, Z.eqb_eq in Hz. subst z. auto.
    + intros Hq. apply negb_false_iff, Qeq_bool_iff in Hq.
      right; right; right; left. by exists q.
    + destruct s; [auto 10|done].
    + destruct items; [auto 10|done].
    + destruct members; [auto 10|done].
Qed.

(** The loop goes past a meaning that offers no definition. *)
Lemma scan_meanings_passed_over (m : value) (rest : list value) :
  passed_over m -> scan_meanings (m :: rest) = scan_meanings rest.
Proof.
  intros (members & -> & [Hnone|[(defs & Hdefs & Hf)
                                |(d0 & ds & Hdefs & Hd)]]);
    cbn [scan_meanings get rbind].
  - by rewrite Hnone.
  - rewrite Hdefs. cbn [from_option id].
    apply falsy_truthy in Hf. by rewrite Hf.
  - rewrite Hdefs. cbn [from_option id truthy item0 rbind get].
    destruct Hd as [Hnone|(d & Hd & Hf)].
    + by rewrite Hnone.
    + rewrite Hd. cbn [from_option id].
      apply falsy_truthy in Hf. by rewrite Hf.
Qed.

Lemma scan_meanings_first before m after d0 ds s :
  Forall passed_over before ->
  lookup_key (u "definitions") m = Some (JArr (JObj d0 :: ds)) ->
  lookup_key (u "definition") d0 = Some (JStr s) ->
  s <> [] ->
  scan_meanings (before ++ JObj m :: after) = Ok (Some (strip s)).
Proof.
  intros Hbefore Hm Hd0 Hs. induction Hbefore as [|x before Hx _ IH].
  - cbn [app scan_meanings get rbind]. rewrite Hm.
    cbn [from_option id truthy item0 rbind get].
    rewrite Hd0. cbn [from_option id].
    destruct s as [|c s]; [done|]. cbn [truthy item rbind].
    rewrite Hd0. reflexivity.
  - cbn [app]. by rewrite scan_meanings_passed_over.
Qed.

(** Conversely, when the loop returns a definition, the meanings have the
    shape of a success. *)
Lemma scan_meanings_success (meanings : list value) (d : pystr) :
  scan_meanings meanings = Ok (Some d) ->
  exists before m after d0 ds s,
    meanings = before ++ JObj m :: after
    /\ Forall passed_over before
    /\ lookup_key (u "definitions") m = Some (JArr (JObj d0 :: ds))
    /\ lookup_key (u "definition") d0 = Some (JStr s)
    /\ s <> []
    /\ d = strip s.
Proof.
  induction meanings as [|x rest IH]; [done|].
  assert (Hskip : passed_over x -> scan_meanings rest = Ok (Some d) ->
            exists before m after d0 ds s,
              x :: rest = before ++ JObj m :: after
              /\ Forall passed_over before
              /\ lookup_key (u "definitions") m = Some (JArr (JObj d0 :: ds))
              /\ lookup_key (u "definition") d0 = Some (JStr s)
              /\ s <> []
              /\ d = strip s).
  { intros Hx Hrest.
    destruct (IH Hrest) as (before & m & after & d0 & ds & s
                            & -> & Hbefore & Hrest').
    exists (x :: before), m, after, d0, ds, s.
    split; [done|]. split; [by constructor|done]. }
  cbn [scan_meanings].
  destruct x as [| | | | | |members]; try done. cbn [get rbind].
  destruct (lookup_key (u "definitions") members) as [defs|] eqn:Hdefs;
    cbn [from_option id].
  2:{ cbn [truthy]. apply Hskip. exists members. auto. }
  destruct (truthy defs) eqn:Htruthy.
  2:{ apply Hskip. exists members. split; [done|]. right; left.
      exists defs. split; [done|]. by apply falsy_truthy. }
  destruct defs as [| | | |[|c cs]|[|d0 ds]|]; try done.
  cbn [item0 rbind].
  destruct d0 as [| | | | | |d0]; try done. cbn [get rbind].
  destruct (lookup_key (u "definition") d0) as [v|] eqn:Hv;
    cbn [from_option id].
  2:{ cbn [truthy]. apply Hskip. exists members. split; [done|].
      right; right. exists d0, ds. auto. }
  destruct (truthy v) eqn:Hvt.
  2:{ apply Hskip. exists members. split; [done|].
      right; right. exists d0, ds. split; [done|]. right.
      exists v. split; [done|]. by apply falsy_truthy. }
  cbn [item rbind]. rewrite Hv.
  destruct v as [| | | |s| |]; try done. cbn [as_str rbind].
  intros [= <-]. exists [], members, rest, d0, ds, s.
  split; [done|]. split; [constructor|]. split; [done|]. split; [done|].
  split; [|done]. by destruct s.
Qed.

(** The first [try] block on an answer that is a success. *)
Lemma source_dictionary_success (word : pystr) (t : trace) (r : Response)
    (s : pystr) :
  requests_get W t (dictionary_url word) = Ok r ->
  dictionary_success r s ->
  source_dictionary W word t
  = (Ok (Some (strip s)), t ++ [HttpGet (dictionary_url word)]).
Proof.
  intros Hr (Hstatus & entry & others & before & m & after & d0 & ds
             & Hjson & Hmeanings & Hbefore & Hm & Hd0 & Hs).
  unfold source_dictionary, bind, http_get.
  rewrite Hr, Hstatus. cbn [Z.eqb Pos.eqb lift].
  unfold parse_dictionary. rewrite Hjson. cbn [rbind item0 get].
  rewrite Hmeanings. cbn [from_option id iter rbind].
  rewrite (scan_meanings_first before m after d0 ds s); done.
Qed.

(** The first [try] block returns a definition only on a success. *)
Lemma source_dictionary_returns (word : pystr) (t : trace) (r : Response)
    (d : pystr) :
  requests_get W t (dictionary_url word) = Ok r ->
  fst (source_dictionary W word t) = Ok (Some d) ->
  exists s, dictionary_success r s /\ d = strip s.
Proof.
  intros Hr. unfold source_dictionary, bind, http_get. rewrite Hr.
  destruct (status_code r =? 200)%Z eqn:Hstatus; [|done].
  apply Z.eqb_eq in Hstatus. cbn [lift fst]. unfold parse_dictionary.
  destruct (json r) as [j|e] eqn:Hjson; [|done]. cbn [rbind].
  destruct j as [| | | |[|c cs]|[|entry others]|]; try done.
  cbn [item0 rbind].
  destruct entry as [| | | | | |entry]; try done. cbn [get rbind].
  destruct (lookup_key (u "meanings") entry) as [meanings|] eqn:Hmeanings;
    cbn [from_option id]; [|done].
  destruct meanings as [| | | |chars|meanings|keys]; try done;
    cbn [iter rbind]; intros Hscan;
    apply scan_meanings_success in Hscan
      as (before & m & after & d0 & ds & s & Heq & Hbefore & Hm & Hd0
          & Hs & ->).
  - assert (Hin : JObj m ∈ map (fun c => JStr [c]) chars).
    { rewrite Heq. apply elem_of_app. right. left. }
    apply list_elem_of_In, in_map_iff in Hin as (c & Hc & _). done.
  - subst meanings. exists s. split; [|done]. split; [done|].
    by exists entry, others, before, m, after, d0, ds.
  - assert (Hin : JObj m ∈ map (fun kv : pystr * value => JStr (fst kv)) keys).
    { rewrite Heq. apply elem_of_app. right. left. }
    apply list_elem_of_In, in_map_iff in Hin as (kv & Hkv & _). done.
Qed.

(** C7.  Whenever source A succeeds - the dictionary request is answered
    with status 200 and a body whose meanings lead to a first definition
    that is a non-empty string - [fetch_definition] returns that definition
    trimmed, after this one request: whatever sources B and C would answer
    and whether or not the fallback lexicon is there, they are not
    consulted.  These answers are all the successes of source A: its [try]
    block returns a definition on no other answer. *)
Theorem fetch_definition_dictionary_first (word : pystr) (t : trace)
    (r : Response) :
  requests_get W t (dictionary_url word) = Ok r ->
  (forall s,
      dictionary_success r s ->
      fetch_definition W word t
      = (Ok (strip s), t ++ [HttpGet (dictionary_url word)]))
  /\ (forall d,
         fst (source_dictionary W word t) = Ok (Some d) ->
         exists s, dictionary_success r s /\ d = strip s).
Proof.
  intros Hr. split.
  - intros s Hs. unfold fetch_definition, bind, try_pass, try_except.
    by rewrite (source_dictionary_success word t r s).
  - intros d. by apply source_dictionary_returns.
Qed.

(** A source of the shape "request, then parse a 200" when no request
    succeeds. *)
Lemma source_down (src : pystr -> M (option pystr)) (url : pystr -> pystr)
    (parse : Response -> M (option pystr)) word t :
  remote_down W ->
  (forall w, src w
             = bind (http_get W (url w))
                 (fun r => if (status_code r =? 200)%Z then parse r
                           else ret None)) ->
  try_pass (src word) t = (Ok None, t ++ [HttpGet (url word)]).
Proof.
  intros Hdown ->. unfold try_pass, try_except, bind, http_get.
  specialize (Hdown t (url word)).
  destruct (requests_get W t (url word)) as [r|e]; [|done].
  apply Z.eqb_neq in Hdown. rewrite Hdown. done.
Qed.

Lemma remote_sources_down word t :
  remote_down W ->
  try_pass (source_dictionary W word) t
  = (Ok None, t ++ [HttpGet (dictionary_url word)])
  /\ try_pass (source_wiktionary W word) t
     = (Ok None, t ++ [HttpGet (wiktionary_url word)])
  /\ try_pass (source_tatoeba W word) t
     = (Ok None, t ++ [HttpGet (tatoeba_url word)])
  /\ try_pass (source_extract W word) t
     = (Ok None, t ++ [HttpGet (extract_url word)]).
Proof.
  intros Hdown. repeat split.
  - by apply (source_down _ _ (fun r => lift (parse_dictionary r))).
  - by apply (source_down _ _
                (fun r => ret (scan_lines (splitlines (text r))))).
  - by apply (source_down _ _ (fun r => lift (parse_tatoeba r))).
  - by apply (source_down _ _ (fun r => lift (parse_extract r))).
Qed.

(** When no request succeeds, line 128 is reached after three requests. *)
Lemma fetch_definition_down word t :
  remote_down W ->
  fetch_definition W word t
  = lexicon_lookup W word
      (t ++ [HttpGet (dictionary_url word)]
         ++ [HttpGet (wiktionary_url word)]
         ++ [HttpGet (tatoeba_url word)]).
Proof.
  intros Hdown. unfold fetch_definition, bind.
  destruct (remote_sources_down word t Hdown) as (-> & _).
  destruct (remote_sources_down word
              (t ++ [HttpGet (dictionary_url word)]) Hdown) as (_ & -> & _).
  destruct (remote_sources_down word
              ((t ++ [HttpGet (dictionary_url word)])
                 ++ [HttpGet (wiktionary_url word)]) Hdown)
    as (_ & _ & -> & _).
  by rewrite <- !app_assoc.
Qed.

(** With [lexicon_defs] unbound, as in the module, the [NameError] of line
    128 leaves [fetch_definition] whenever no request succeeds. *)
Lemma fetch_definition_down_unbound word t :
  remote_down W -> lexicon_defs W = None ->
  fst (fetch_definition W word t) = Raise (NameError (u "lexicon_defs")).
Proof.
  intros Hdown Hnone. rewrite fetch_definition_down by done.
  unfold lexicon_lookup. by rewrite Hnone.
Qed.

(** With [lexicon_defs] bound, the result is the entry of the lowercased
    word, and the empty string when it has none. *)
Lemma fetch_definition_down_bound word t defs :
  remote_down W -> lexicon_defs W = Some defs ->
  fst (fetch_definition W word t) = Ok (default [] (defs !! lower word)).
Proof.
  intros Hdown Hsome. rewrite fetch_definition_down by done.
  unfold lexicon_lookup. by rewrite Hsome.
Qed.

(** With [lexicon_defs] bound, no exception leaves [fetch_definition]. *)
Lemma fetch_definition_bound_total word t defs :
  lexicon_defs W = Some defs ->
  exists d t', fetch_definition W word t = (Ok d, t').
Proof.
  intros Hsome.
  unfold fetch_definition, bind, try_pass, try_except, lexicon_lookup.
  rewrite Hsome.
  destruct (source_dictionary W word t) as [[[d|]|e] t1]; unfold ret; eauto.
  all: destruct (source_wiktionary W word t1) as [[[d|]|e'] t2]; eauto.
  all: destruct (source_tatoeba W word t2) as [[[d|]|e''] t3]; eauto.
Qed.

End DefinitionResolver.

(** ** ExampleResolver *)

Lemma startswith_prefix p s :
  startswith p s = true <-> exists post, s = p ++ post.
Proof.
  revert s. induction p as [|a p IH]; intros [|b s]; cbn.
  - split; [by exists []|done].
  - split; [by eexists|done].
  - split; [done|]. intros [post Hpost]. discriminate Hpost.
  - rewrite andb_true_iff, N.eqb_eq, IH. split.
    + intros [-> [post ->]]. by exists post.
    + intros [post Hpost]. injection Hpost as -> ->. eauto.
Qed.

Lemma contains_substring needle hay :
  contains needle hay = true <-> substring_of needle hay.
Proof.
  unfold substring_of. induction hay as [|c hay IH]; cbn.
  - rewrite orb_false_r, startswith_prefix. split.
    + intros [post ->]. by exists [], post.
    + intros (pre & post & Heq). destruct pre; [|discriminate Heq].
      by exists post.
  - rewrite orb_true_iff, startswith_prefix, IH. split.
    + intros [[post ->]|(pre & post & ->)].
      * by exists [], post.
      * by exists (c :: pre), post.
    + intros ([|c' pre] & post & Heq).
      * left. by exists post.
      * right. injection Heq as -> ->. by exists pre, post.
Qed.

Lemma default_sentence_names word : substring_of word (default_sentence word).
Proof. unfold default_sentence. by eexists _, _. Qed.

Lemma default_sentence_nonempty word : default_sentence word <> [].
Proof.
  unfold default_sentence.
  assert (Hp : exists c rest, u "Exemple par défaut : '" = c :: rest)
    by (vm_compute; eauto).
  destruct Hp as (c & rest & ->). discriminate.
Qed.

Section ExampleResolver.

Context `{Runtime} (W : World).

Lemma find_local_first word sentences :
  (exists s, s ∈ sentences /\ substring_of word (lower s)) ->
  exists pre s post,
    sentences = pre ++ s :: post
    /\ (forall x, x ∈ pre -> ~ substring_of word (lower x))
    /\ substring_of word (lower s)
    /\ find_local word sentences = Some (strip s).
Proof.
  induction sentences as [|s0 sentences IH]; intros (s & Hin & Hsub).
  - by apply elem_of_nil in Hin.
  - cbn. destruct (contains word (lower s0)) eqn:Hc.
    + exists [], s0, sentences. split; [done|]. split.
      * intros x []%elem_of_nil.
      * split; [by apply contains_substring|done].
    + destruct IH as (pre & s1 & post & -> & Hpre & Hs1 & Hfind).
      { exists s. split; [|done].
        apply elem_of_cons in Hin as [->|Hin]; [|done].
        apply contains_substring in Hsub. congruence. }
      exists (s0 :: pre), s1, post. split; [done|]. split; [|done].
      intros x [->|Hx]%elem_of_cons; [|by apply Hpre].
      rewrite <- contains_substring. congruence.
Qed.

Lemma find_local_none word sentences :
  (forall s, s ∈ sentences -> ~ substring_of word (lower s)) ->
  find_local word sentences = None.
Proof.
  induction sentences as [|s0 sentences IH]; intros Hall; [done|]. cbn.
  destruct (contains word (lower s0)) eqn:Hc.
  - apply contains_substring in Hc. exfalso. eapply Hall; [left|done].
  - apply IH. intros s Hs. apply Hall. by right.
Qed.

(** C8 (amended).  For every word that is already lowercase, as every word
    the pipeline looks up is: if some locally held sentence contains the
    word as a case-insensitive substring, [find_example_sentence] returns
    the first such sentence trimmed and issues no request, whatever the
    remote source would answer. *)
Theorem example_local_first (self : RSSScraper) (word : pystr) (t : trace) :
  lower word = word ->
  (exists s, s ∈ article_sentences self
             /\ substring_of (lower word) (lower s)) ->
  exists pre s post,
    article_sentences self = pre ++ s :: post
    /\ (forall x, x ∈ pre -> ~ substring_of (lower word) (lower x))
    /\ substring_of (lower word) (lower s)
    /\ find_example_sentence W self word t = (Ok (strip s), t).
Proof.
  intros Hlow Hex. rewrite Hlow in *.
  destruct (find_local_first word _ Hex)
    as (pre & s & post & Hsplit & Hpre & Hs & Hfind).
  exists pre, s, post. repeat (split; [done|]).
  unfold find_example_sentence. by rewrite Hfind.
Qed.

(** C9.  When no locally held sentence matches the word and the remote
    lookup does not yield a sentence - the request raises, is not answered
    with a 200, or its answer cannot be used or has no extract - the
    example resolver returns the synthetic default sentence, which contains
    the word; and for every scraper, word and world the resolver returns a
    sentence: no failure of the remote source leaves it. *)
Theorem example_default_last (self : RSSScraper) (word : pystr) (t : trace) :
  (forall s, s ∈ article_sentences self -> ~ substring_of word (lower s)) ->
  (forall s, fst (source_extract W word t) <> Ok (Some s)) ->
  find_example_sentence W self word t
  = (Ok (default_sentence word), t ++ [HttpGet (extract_url word)])
  /\ substring_of word (default_sentence word)
  /\ forall self' word' t', exists s t'',
      find_example_sentence W self' word' t' = (Ok s, t'').
Proof.
  intros Hlocal Hremote. split; [|split].
  - unfold find_example_sentence. rewrite find_local_none by done.
    unfold bind, try_pass, try_except.
    assert (Htrace : snd (source_extract W word t)
                     = t ++ [HttpGet (extract_url word)]).
    { unfold source_extract, bind, http_get.
      destruct (requests_get W t (extract_url word)) as [r|e]; [|done].
      by destruct (status_code r =? 200)%Z. }
    destruct (source_extract W word t) as [[[s|]|e] t1]; cbn in *; subst.
    + by destruct (Hremote s).
    + done.
    + done.
  - apply default_sentence_names.
  - intros self' word' t'. unfold find_example_sentence.
    destruct (find_local word' (article_sentences self'));
      [by eexists _, _|].
    unfold bind, try_pass, try_except.
    destruct (source_extract W word' t') as [[[s|]|e] t1]; by eexists _, _.
Qed.

Lemma find_example_sentence_down (self : RSSScraper) (word : pystr)
    (t : trace) :
  remote_down W ->
  exists t',
    find_example_sentence W self word t
    = (Ok (default (default_sentence word)
             (find_local word (article_sentences self))), t').
Proof.
  intros Hdown. unfold find_example_sentence.
  destruct (find_local word (article_sentences self)); [by eexists|].
  unfold bind.
  destruct (remote_sources_down W word t Hdown) as (_ & _ & _ & ->).
  by eexists.
Qed.

End ExampleResolver.

(** ** The corpus source *)

Section CorpusSource.

Context (W : World).

Lemma collect_entries_cap max_articles articles entries :
  (Z.of_nat (length articles) < max_articles)%Z ->
  let r := collect_entries max_articles articles entries in
  if snd r then Z.of_nat (length (fst r)) = max_articles
  else (Z.of_nat (length (fst r)) < max_articles)%Z.
Proof.
  revert articles.
  induction entries as [|e entries IH]; intros articles Hlt; cbn.
  - done.
  - set (articles' := match summary e with
                      | Some s => articles ++ [s]
                      | None => _
                      end).
    assert (Hlen : length articles' <= S (length articles)).
    { unfold articles'. destruct (summary e), (description e);
        rewrite ?length_app; cbn; lia. }
    destruct (max_articles <=? Z.of_nat (length articles'))%Z eqn:Hcap.
    + apply Z.leb_le in Hcap. cbn. lia.
    + apply Z.leb_gt in Hcap. by apply IH.
Qed.

Lemma fetch_feeds_cap max_articles articles feeds t :
  (Z.of_nat (length articles) < max_articles)%Z ->
  exists result t',
    fetch_feeds W max_articles articles feeds t = (Ok result, t')
    /\ (Z.of_nat (length result) <= max_articles)%Z.
Proof.
  revert articles t.
  induction feeds as [|feed feeds IH]; intros articles t Hlt.
  - exists articles, t. split; [done|lia].
  - cbn [fetch_feeds]. unfold bind at 1.
    unfold try_except, bind, feed_entries, ret.
    destruct (feedparser_parse W t feed) as [entries|e].
    + pose proof (collect_entries_cap max_articles articles entries Hlt)
        as Hcap.
      cbv zeta in Hcap.
      destruct (collect_entries max_articles articles entries)
        as [found returned].
      cbn [fst snd] in *. destruct returned.
      * eexists _, _. split; [done|lia].
      * by apply IH.
    + unfold print, emit. cbn [fst snd]. by apply IH.
Qed.

(** C10.  For every [max_articles >= 1] and whatever the feeds hold or
    raise, [fetch_articles_from_rss] returns a list of at most
    [max_articles] snippets.  For [max_articles = 0] the bound fails: there
    are feeds for which one snippet is returned, since the length is
    compared with the cap only after an entry has been looked at. *)
Theorem fetch_articles_at_most_max :
  (forall (self : RSSScraper) (max_articles : Z) (t : trace),
      (1 <= max_articles)%Z ->
      exists articles t',
        fetch_articles_from_rss W self max_articles t = (Ok articles, t')
        /\ (Z.of_nat (length articles) <= max_articles)%Z)
  /\ (exists articles t',
        fetch_articles_from_rss offline new_scraper 0 [] = (Ok articles, t')
        /\ length articles = 1).
Proof.
  split.
  - intros self max_articles t Hmax. apply fetch_feeds_cap. cbn. lia.
  - eexists _, _. split; [vm_compute; reflexivity|reflexivity].
Qed.

End CorpusSource.

(** ** The pipeline *)

Lemma placeholder_nonempty : nonempty placeholder = true.
Proof. reflexivity. Qed.

Section Pipeline.

Context `{Runtime} (W : World) (df : list LexRow).

Lemma rarity_sample_single (c : pystr * pystr) :
  rarity_sample W [c] = Ok [c].
Proof.
  unfold rarity_sample, uniques, Counter.
  cbn [fold_left counter_add List.filter snd Nat.eqb map fst length Nat.min
       random_sample Nat.leb rbind sample_from].
  rewrite Nat.mod_1_r. reflexivity.
Qed.

(** No articles: the run reports it and ends, writing nothing. *)
Lemma run_no_articles (self : RSSScraper) (max_articles : Z) (t t1 : trace) :
  fetch_articles_from_rss W self max_articles t = (Ok [], t1) ->
  run W df self max_articles t
  = (Ok self, t1 ++ [Print (u "No articles fetched.")]).
Proof. intros Hfetch. unfold run, bind. by rewrite Hfetch. Qed.

(** No candidates: the run reports it and ends, writing nothing. *)
Lemma run_no_candidates (self self' : RSSScraper) (max_articles : Z)
    (t t1 t2 : trace) (articles : list pystr) :
  fetch_articles_from_rss W self max_articles t = (Ok articles, t1) ->
  articles <> [] ->
  process_articles W df (length articles) 1 self [] articles t1
  = (Ok (self', []), t2) ->
  run W df self max_articles t
  = (Ok self',
     t2 ++ [Print (u "Total candidate tokens: " ++ of_nat 0)]
        ++ [Print (u "Nothing to process.")]).
Proof.
  intros Hfetch Harticles Hprocess.
  unfold run. unfold bind at 1. rewrite Hfetch.
  destruct articles as [|a articles]; [done|].
  unfold bind at 1. rewrite Hprocess. cbn [fst snd length].
  unfold bind, print, emit, ret. by rewrite <- app_assoc.
Qed.

(** No rarities: the run goes on to the banner, resolves no word and
    writes the header. *)
Lemma run_no_rarities (self self' : RSSScraper)
    (max_articles : Z) (t t1 t2 : trace) (articles : list pystr)
    (all_words : list (pystr * pystr)) :
  fetch_articles_from_rss W self max_articles t = (Ok articles, t1) ->
  articles <> [] ->
  process_articles W df (length articles) 1 self [] articles t1
  = (Ok (self', all_words), t2) ->
  all_words <> [] ->
  (forall p, occurrences p all_words <> 1) ->
  run W df self max_articles t
  = (Ok self',
     t2 ++ [Print (u "Total candidate tokens: "
                     ++ of_nat (length all_words))]
        ++ banner
        ++ [WriteFile output_path output_header]).
Proof.
  intros Hfetch Harticles Hprocess Hwords Hocc.
  unfold run. unfold bind at 1. rewrite Hfetch.
  destruct articles as [|a articles]; [done|].
  unfold bind at 1. rewrite Hprocess. cbn [fst snd].
  unfold bind at 1. unfold print at 1, emit at 1.
  destruct all_words as [|c all_words]; [done|].
  unfold rarity_sample. rewrite (uniques_nil (c :: all_words)) by done.
  cbn [length Nat.min random_sample Nat.leb sample_from rbind sorted foldr].
  unfold bind, print, emit, ret, lift. cbn [make_flashcards map concat].
  unfold ret. rewrite app_nil_r. unfold banner. rewrite <- !app_assoc. done.
Qed.

End Pipeline.

(** * Further properties of the program *)

(** ** The trace and the outcome of a computation *)

Section Outcome.
Context {A B : Type} (P : event -> Prop).

Lemma outcome_ret (Q : A -> Prop) E a : Q a -> outcome P Q E (ret a).
Proof. intros HQ t. exists (Ok a), []. by rewrite app_nil_r. Qed.

Lemma outcome_raise (Q : A -> Prop) (E : exn -> Prop) e :
  E e -> outcome P Q E (raise e).
Proof. intros HE t. exists (Raise e), []. by rewrite app_nil_r. Qed.

Lemma outcome_lift (Q : A -> Prop) (E : exn -> Prop) (r : result A) :
  match r with Ok a => Q a | Raise e => E e end -> outcome P Q E (lift r).
Proof. intros Hr t. exists r, []. by rewrite app_nil_r. Qed.

Lemma outcome_emit (Q : unit -> Prop) E e :
  P e -> Q tt -> outcome P Q E (emit e).
Proof. intros HP HQ t. exists (Ok tt), [e]. repeat split; auto. Qed.

Lemma outcome_bind (Q1 : A -> Prop) (Q : B -> Prop) (E : exn -> Prop)
    (m : M A) (k : A -> M B) :
  outcome P Q1 E m -> (forall a, Q1 a -> outcome P Q E (k a)) ->
  outcome P Q E (bind m k).
Proof.
  intros Hm Hk t. unfold bind.
  destruct (Hm t) as (r & new & -> & Hnew & Hr). destruct r as [a|e].
  - destruct (Hk a Hr (t ++ new)) as (r' & new' & -> & Hnew' & Hr').
    exists r', (new ++ new'). rewrite app_assoc. split; [done|].
    split; [by apply Forall_app|done].
  - by exists (Raise e), new.
Qed.

Lemma outcome_try (Q : A -> Prop) (E1 E : exn -> Prop) (body : M A)
    (handler : exn -> M A) :
  outcome P Q E1 body -> (forall e, E1 e -> outcome P Q E (handler e)) ->
  outcome P Q E (try_except body handler).
Proof.
  intros Hm Hh t. unfold try_except.
  destruct (Hm t) as (r & new & -> & Hnew & Hr). destruct r as [a|e].
  - by exists (Ok a), new.
  - destruct (Hh e Hr (t ++ new)) as (r' & new' & -> & Hnew' & Hr').
    exists r', (new ++ new'). rewrite app_assoc. split; [done|].
    split; [by apply Forall_app|done].
Qed.

Lemma outcome_weaken (P' : event -> Prop) (Q Q' : A -> Prop)
    (E E' : exn -> Prop) (m : M A) :
  outcome P' Q' E' m ->
  (forall e, P' e -> P e) -> (forall a, Q' a -> Q a) ->
  (forall e, E' e -> E e) ->
  outcome P Q E m.
Proof.
  intros Hm HP HQ HE t. destruct (Hm t) as (r & new & -> & Hnew & Hr).
  exists r, new. split; [done|]. split.
  - eapply Forall_impl; eauto.
  - destruct r; auto.
Qed.
End Outcome.

Lemma outcome_http_get (P : event -> Prop) (W : World) url :
  P (HttpGet url) -> outcome P any any (http_get W url).
Proof.
  intros HP t. exists (requests_get W t url), [HttpGet url].
  repeat split; auto. by destruct (requests_get W t url).
Qed.

Section Sources.
Context `{Runtime} (W : World).

(** A [try] body that makes one request and then only computes. *)
Lemma request_then_parse_trace url (parse : Response -> M (option pystr)) t :
  (forall r t0, snd (parse r t0) = t0) ->
  snd (try_pass (bind (http_get W url) parse) t) = t ++ [HttpGet url].
Proof.
  intros Hparse. unfold try_pass, try_except, bind, http_get.
  destruct (requests_get W t url) as [r|e]; [|done].
  specialize (Hparse r (t ++ [HttpGet url])).
  by destruct (parse r (t ++ [HttpGet url])) as [[?|?] ?].
Qed.

Lemma try_pass_ok (body : M (option pystr)) t :
  exists o, fst (try_pass body t) = Ok o.
Proof.
  unfold try_pass, try_except. destruct (body t) as [[o|e] t']; by eexists.
Qed.

Lemma source_dictionary_trace word t :
  snd (try_pass (source_dictionary W word) t)
  = t ++ [HttpGet (dictionary_url word)].
Proof.
  apply (request_then_parse_trace _
           (fun r => if (status_code r =? 200)%Z then lift (parse_dictionary r)
                     else ret None)).
  intros r t0. by destruct (status_code r =? 200)%Z.
Qed.

Lemma source_wiktionary_trace word t :
  snd (try_pass (source_wiktionary W word) t)
  = t ++ [HttpGet (wiktionary_url word)].
Proof.
  apply (request_then_parse_trace _
           (fun r => if (status_code r =? 200)%Z
                     then ret (scan_lines (splitlines (text r)))
                     else ret None)).
  intros r t0. by destruct (status_code r =? 200)%Z.
Qed.

Lemma source_tatoeba_trace word t :
  snd (try_pass (source_tatoeba W word) t)
  = t ++ [HttpGet (tatoeba_url word)].
Proof.
  apply (request_then_parse_trace _
           (fun r => if (status_code r =? 200)%Z then lift (parse_tatoeba r)
                     else ret None)).
  intros r t0. by destruct (status_code r =? 200)%Z.
Qed.

Lemma source_extract_trace word t :
  snd (try_pass (source_extract W word) t)
  = t ++ [HttpGet (extract_url word)].
Proof.
  apply (request_then_parse_trace _
           (fun r => if (status_code r =? 200)%Z then lift (parse_extract r)
                     else ret None)).
  intros r t0. by destruct (status_code r =? 200)%Z.
Qed.

Lemma fetch_definition_facts (word : pystr) (t : trace) :
  exists r new,
    fetch_definition W word t = (r, t ++ new)
    /\ definition_requests word new
    /\ match r with
       | Ok _ => True
       | Raise e =>
           e = NameError (u "lexicon_defs")
           /\ lexicon_defs W = None
           /\ new = [HttpGet (dictionary_url word);
                     HttpGet (wiktionary_url word);
                     HttpGet (tatoeba_url word)]
       end.
Proof.
  unfold fetch_definition, bind.
  pose proof (source_dictionary_trace word t) as Ha.
  destruct (try_pass_ok (source_dictionary W word) t) as [a Hra].
  destruct (try_pass (source_dictionary W word) t) as [ra ta].
  cbn [fst snd] in Ha, Hra. subst ra ta. destruct a as [d|].
  { eexists _, _. split; [reflexivity|]. split; [by left|done]. }
  pose proof (source_wiktionary_trace word (t ++ [HttpGet (dictionary_url word)])) as Hb.
  destruct (try_pass_ok (source_wiktionary W word) (t ++ [HttpGet (dictionary_url word)])) as [b Hrb].
  destruct (try_pass (source_wiktionary W word) _) as [rb tb].
  cbn [fst snd] in Hb, Hrb. subst rb tb. destruct b as [d|].
  { eexists _, _. rewrite <- app_assoc. split; [reflexivity|].
    split; [by right; left|done]. }
  match goal with |- context [try_pass (source_tatoeba W word) ?t0] =>
    pose proof (source_tatoeba_trace word t0) as Hc;
    destruct (try_pass_ok (source_tatoeba W word) t0) as [c Hrc];
    destruct (try_pass (source_tatoeba W word) t0) as [rc tc]
  end.
  cbn [fst snd] in Hc, Hrc. subst rc tc. rewrite <- !app_assoc. cbn [app].
  destruct c as [d|].
  { eexists _, _. split; [reflexivity|]. split; [by right; right|done]. }
  unfold lexicon_lookup. destruct (lexicon_defs W) as [defs|] eqn:Hdefs.
  - eexists _, _. split; [reflexivity|]. split; [by right; right|done].
  - eexists _, _. split; [reflexivity|]. split; [by right; right|done].
Qed.
(** X4.  [fetch_definition] makes one, two or three requests - the
    dictionary, then the wiki, then the sentence search, each once and in
    this order - and does nothing else to the world.  It returns a string,
    or else the [NameError] of line 128 leaves it, and that only after all
    three requests and only when nothing binds [lexicon_defs]. *)
Theorem fetch_definition_outcomes (word : pystr) (t : trace) :
  exists r new,
    fetch_definition W word t = (r, t ++ new)
    /\ definition_requests word new
    /\ match r with
       | Ok _ => True
       | Raise e =>
           e = NameError (u "lexicon_defs")
           /\ lexicon_defs W = None
           /\ new = [HttpGet (dictionary_url word);
                     HttpGet (wiktionary_url word);
                     HttpGet (tatoeba_url word)]
       end.
Proof. apply fetch_definition_facts. Qed.

End Sources.

(** *** [strip] and the text before a delimiter *)

Lemma drop_while_split (p : N -> bool) (s : pystr) :
  exists z, s = z ++ drop_while p s /\ Forall (fun c => p c = true) z.
Proof.
  induction s as [|c s (z & Hz & Hall)]; cbn.
  - by exists [].
  - destruct (p c) eqn:Hc.
    + exists (c :: z). split; [by rewrite Hz at 1|by constructor].
    + by exists [].
Qed.

Lemma drop_while_head (p : N -> bool) (s : pystr) :
  match drop_while p s with [] => True | c :: _ => p c = false end.
Proof.
  induction s as [|c s IH]; cbn; [done|].
  destruct (p c) eqn:Hc; [done|]. cbn. done.
Qed.

Lemma drop_while_fixed (p : N -> bool) (s : pystr) :
  match s with [] => True | c :: _ => p c = false end ->
  drop_while p s = s.
Proof. destruct s as [|c s]; cbn; [done|]. by intros ->. Qed.

Lemma drop_while_elem (p : N -> bool) (s : pystr) (c : N) :
  c ∈ drop_while p s -> c ∈ s.
Proof.
  destruct (drop_while_split p s) as (z & Hz & _). intros Hc.
  rewrite Hz. apply elem_of_app. by right.
Qed.

Lemma strip_elem (s : pystr) (c : N) : c ∈ strip s -> c ∈ s.
Proof.
  unfold strip. rewrite !list_elem_of_In, <- in_rev, <- !list_elem_of_In.
  intros Hc%drop_while_elem. apply (drop_while_elem is_space).
  by rewrite list_elem_of_In, in_rev, <- list_elem_of_In.
Qed.

(** A stripped string has no whitespace at either end. *)
Lemma strip_ends (s : pystr) :
  drop_while is_space (strip s) = strip s
  /\ drop_while is_space (rev (strip s)) = rev (strip s).
Proof.
  unfold strip. set (y := drop_while is_space s).
  split.
  - apply drop_while_fixed.
    destruct (drop_while_split is_space (rev y)) as (z & Hz & Hall).
    apply (f_equal (@rev N)) in Hz. rewrite rev_involutive, rev_app_distr in Hz.
    pose proof (drop_while_head is_space s) as Hy. fold y in Hy.
    destruct (rev (drop_while is_space (rev y))) as [|c r]; [done|].
    rewrite Hz in Hy. done.
  - rewrite rev_involutive. apply drop_while_fixed, drop_while_head.
Qed.

Lemma strip_idemp (s : pystr) : strip (strip s) = strip s.
Proof.
  destruct (strip_ends s) as [Hl Hr].
  unfold strip at 1. rewrite Hl, Hr. apply rev_involutive.
Qed.

Lemma take_while_elem (p : N -> bool) (s : pystr) (c : N) :
  c ∈ take_while p s -> p c = true.
Proof.
  induction s as [|x s IH]; cbn; [by intros ?%elem_of_nil|].
  destruct (p x) eqn:Hx; [|by intros ?%elem_of_nil].
  intros [->|Hc]%elem_of_cons; auto.
Qed.

Lemma before_first_elem (is_delim : N -> bool) (s : pystr) (c : N) :
  c ∈ before_first is_delim s -> is_delim c = false.
Proof.
  unfold before_first. intros Hc%take_while_elem.
  by apply negb_true_iff in Hc.
Qed.

Section Wiktionary.
Context `{Runtime}.

(** A definition taken from the wiki markup is trimmed and stops before
    the first [.] or [;]. *)
Lemma scan_lines_result (lines : list pystr) (d : pystr) :
  scan_lines lines = Some d ->
  strip d = d
  /\ forall c, c ∈ d -> c <> ord "." /\ c <> ord ";".
Proof.
  induction lines as [|line lines IH]; cbn [scan_lines]; [done|].
  destruct (_ && _ && _); [|done].
  destruct (_clean_wikicode _) as [|x clean]; [done|].
  intros [= <-]. split; [apply strip_idemp|].
  intros c Hc%strip_elem%before_first_elem.
  apply orb_false_iff in Hc as [H1 H2].
  apply N.eqb_neq in H1, H2. done.
Qed.
End Wiktionary.

Section Chain.
Context `{Runtime} (W : World).

Lemma try_pass_nothing (src : M (option pystr)) t :
  yields_nothing src t -> fst (try_pass src t) = Ok None.
Proof.
  unfold yields_nothing, try_pass, try_except. intros Hno.
  destruct (src t) as [[[d|]|e] t']; cbn in *; try done.
  by destruct (Hno d).
Qed.

(** X5.  When the dictionary yields nothing and the wiki request is
    answered with a 200 whose markup holds a definition line, the result of
    [fetch_definition] is the definition read from that line, after two
    requests: it has no whitespace at either end and holds no [.] and no
    [;], and the third source and the lexicon are not consulted. *)
Theorem fetch_definition_wiktionary_second (word : pystr) (t : trace)
    (r : Response) (d : pystr) :
  yields_nothing (source_dictionary W word) t ->
  requests_get W (t ++ [HttpGet (dictionary_url word)]) (wiktionary_url word)
  = Ok r ->
  status_code r = 200%Z ->
  scan_lines (splitlines (text r)) = Some d ->
  fetch_definition W word t
  = (Ok d, t ++ [HttpGet (dictionary_url word);
                 HttpGet (wiktionary_url word)])
  /\ strip d = d
  /\ forall c, c ∈ d -> c <> ord "." /\ c <> ord ";".
Proof.
  intros Ha Hr Hstatus Hscan. split; [|by eapply scan_lines_result].
  unfold fetch_definition, bind.
  pose proof (source_dictionary_trace W word t) as Hta.
  apply try_pass_nothing in Ha.
  destruct (try_pass (source_dictionary W word) t) as [ra ta].
  cbn [fst snd] in Ha, Hta. subst ra ta.
  unfold try_pass, try_except, source_wiktionary, bind, http_get.
  rewrite Hr, Hstatus. cbn [Z.eqb Pos.eqb]. unfold ret. rewrite Hscan.
  by rewrite <- app_assoc.
Qed.

(** X6.  When the first two sources yield nothing and the sentence search
    is answered with a 200 and a non-empty list of results, the result of
    [fetch_definition] is the text of the first result, trimmed - the empty
    string when that result has no text or a blank one - after three
    requests; the lexicon is not consulted, so no [NameError] is raised. *)
Theorem fetch_definition_tatoeba_third (word : pystr) (t : trace)
    (r : Response) (members r0 : list (pystr * value)) (rest : list value)
    (s : pystr) :
  yields_nothing (source_dictionary W word) t ->
  yields_nothing (source_wiktionary W word)
    (t ++ [HttpGet (dictionary_url word)]) ->
  requests_get W
    (t ++ [HttpGet (dictionary_url word); HttpGet (wiktionary_url word)])
    (tatoeba_url word) = Ok r ->
  status_code r = 200%Z ->
  json r = Ok (JObj members) ->
  lookup_key (u "results") members = Some (JArr (JObj r0 :: rest)) ->
  default (JStr []) (lookup_key (u "text") r0) = JStr s ->
  fetch_definition W word t
  = (Ok (strip s),
     t ++ [HttpGet (dictionary_url word); HttpGet (wiktionary_url word);
           HttpGet (tatoeba_url word)]).
Proof.
  intros Ha Hb Hr Hstatus Hjson Hresults Htext.
  unfold fetch_definition, bind.
  pose proof (source_dictionary_trace W word t) as Hta.
  apply try_pass_nothing in Ha.
  destruct (try_pass (source_dictionary W word) t) as [ra ta].
  cbn [fst snd] in Ha, Hta. subst ra ta.
  pose proof (source_wiktionary_trace W word
                (t ++ [HttpGet (dictionary_url word)])) as Htb.
  apply try_pass_nothing in Hb.
  destruct (try_pass (source_wiktionary W word) _) as [rb tb].
  cbn [fst snd] in Hb, Htb. subst rb tb. rewrite <- app_assoc. cbn [app].
  unfold try_pass, try_except, source_tatoeba, bind, http_get.
  rewrite Hr, Hstatus. cbn [Z.eqb Pos.eqb lift].
  unfold parse_tatoeba. rewrite Hjson. cbn [rbind get]. rewrite Hresults.
  cbn [from_option id truthy item0 rbind get]. rewrite Htext.
  cbn [as_str rbind]. by rewrite <- app_assoc.
Qed.
End Chain.

Section ExampleShapes.
Context `{Runtime} (W : World).

Lemma scan_pages_shape (pages : list value) (s : pystr) :
  scan_pages pages = Ok (Some s) ->
  exists ext, s = ext ++ u "." /\ ext <> [] /\ ord "." ∉ ext.
Proof.
  induction pages as [|p pages IH]; cbn [scan_pages]; [done|].
  destruct (get p (u "extract") (JStr [])) as [e|]; cbn [rbind]; [|done].
  destruct (as_str e) as [s0|]; cbn [rbind]; [|done].
  destruct (before_first (N.eqb (ord ".")) s0) as [|c ext] eqn:Hext; [done|].
  intros [= <-]. exists (c :: ext). split; [done|]. split; [done|].
  rewrite <- Hext. intros Hin%before_first_elem.
  by rewrite N.eqb_refl in Hin.
Qed.

Lemma find_example_sentence_facts (self : RSSScraper) (word : pystr)
    (t : trace) :
  exists s new,
    find_example_sentence W self word t = (Ok s, t ++ new)
    /\ ((new = []
         /\ exists x, x ∈ article_sentences self
                      /\ substring_of word (lower x) /\ s = strip x)
        \/ (new = [HttpGet (extract_url word)]
            /\ (s = default_sentence word
                \/ exists ext, s = ext ++ u "." /\ ext <> []
                               /\ ord "." ∉ ext))).
Proof.
  unfold find_example_sentence.
  destruct (find_local word (article_sentences self)) as [s|] eqn:Hlocal.
  - exists s, []. rewrite app_nil_r. split; [done|]. left. split; [done|].
    clear t. induction (article_sentences self) as [|x l IH]; [done|].
    cbn in Hlocal. destruct (contains word (lower x)) eqn:Hc.
    + injection Hlocal as <-. exists x. split; [left|].
      split; [by apply contains_substring|done].
    + destruct (IH Hlocal) as (y & Hy & Hsub & ->).
      exists y. split; [by right|done].
  - unfold bind.
    pose proof (source_extract_trace W word t) as Ht.
    destruct (try_pass (source_extract W word) t) as [r t1] eqn:Htry.
    cbn [snd] in Ht. subst t1.
    unfold try_pass, try_except, source_extract, bind, http_get in Htry.
    destruct (requests_get W t (extract_url word)) as [resp|e].
    + destruct (status_code resp =? 200)%Z.
      * unfold lift in Htry. unfold parse_extract in Htry.
        destruct (json resp) as [j|]; cbn [rbind] in Htry.
        2:{ injection Htry as <-. eexists _, _. split; [reflexivity|].
            right. split; [done|by left]. }
        destruct (get j (u "query") (JObj [])) as [q|]; cbn [rbind] in Htry.
        2:{ injection Htry as <-. eexists _, _. split; [reflexivity|].
            right. split; [done|by left]. }
        destruct (get q (u "pages") (JObj [])) as [pages|]; cbn [rbind] in Htry.
        2:{ injection Htry as <-. eexists _, _. split; [reflexivity|].
            right. split; [done|by left]. }
        destruct (values pages) as [ps|]; cbn [rbind] in Htry.
        2:{ injection Htry as <-. eexists _, _. split; [reflexivity|].
            right. split; [done|by left]. }
        destruct (scan_pages ps) as [[s|]|] eqn:Hscan;
          injection Htry as <-; eexists _, _; (split; [reflexivity|]);
          right; (split; [done|]); [right|by left|by left].
        by apply scan_pages_shape in Hscan.
      * injection Htry as <-. eexists _, _. split; [reflexivity|].
        right. split; [done|by left].
    + injection Htry as <-. eexists _, _. split; [reflexivity|].
      right. split; [done|by left].
Qed.
(** X7.  [find_example_sentence] always returns a sentence and makes at
    most one request.  Without a request the sentence is a locally held
    sentence that contains the word, trimmed; after the request it is the
    synthetic default sentence or a non-empty text without [.] followed by
    one [.]. *)
Theorem find_example_sentence_shapes (self : RSSScraper) (word : pystr)
    (t : trace) :
  exists s new,
    find_example_sentence W self word t = (Ok s, t ++ new)
    /\ ((new = []
         /\ exists x, x ∈ article_sentences self
                      /\ substring_of word (lower x) /\ s = strip x)
        \/ (new = [HttpGet (extract_url word)]
            /\ (s = default_sentence word
                \/ exists ext, s = ext ++ u "." /\ ext <> []
                               /\ ord "." ∉ ext))).
Proof. apply find_example_sentence_facts. Qed.

(** X8.  When no locally held sentence matches and the wiki answers with a
    200 whose first page has an extract that does not start with [.], the
    example is the extract up to its first [.], with one [.] put back. *)
Theorem example_remote_second (self : RSSScraper) (word : pystr) (t : trace)
    (r : Response) (body query page : list (pystr * value)) (key : pystr)
    (rest : list (pystr * value)) (e : pystr) :
  (forall s, s ∈ article_sentences self -> ~ substring_of word (lower s)) ->
  requests_get W t (extract_url word) = Ok r ->
  status_code r = 200%Z ->
  json r = Ok (JObj body) ->
  lookup_key (u "query") body = Some (JObj query) ->
  lookup_key (u "pages") query = Some (JObj ((key, JObj page) :: rest)) ->
  lookup_key (u "extract") page = Some (JStr e) ->
  before_first (N.eqb (ord ".")) e <> [] ->
  find_example_sentence W self word t
  = (Ok (before_first (N.eqb (ord ".")) e ++ u "."),
     t ++ [HttpGet (extract_url word)]).
Proof.
  intros Hlocal Hr Hstatus Hjson Hquery Hpages Hextract Hext.
  unfold find_example_sentence. rewrite find_local_none by done.
  unfold bind, try_pass, try_except, source_extract, bind, http_get.
  rewrite Hr, Hstatus. cbn [Z.eqb Pos.eqb lift].
  unfold parse_extract. rewrite Hjson. cbn [rbind get]. rewrite Hquery.
  cbn [from_option id rbind get]. rewrite Hpages.
  cbn [from_option id values rbind map snd scan_pages get]. rewrite Hextract.
  cbn [from_option id as_str rbind].
  by destruct (before_first (N.eqb (ord ".")) e).
Qed.

End ExampleShapes.

(** *** [re.sub] *)

Lemma re_sub_skip m k s : re_sub m k s = re_sub m 0 (drop k s).
Proof.
  revert k. induction s as [|c s IH]; intros [|k]; cbn [re_sub drop]; auto.
Qed.

Lemma re_sub_cons m c rest :
  re_sub m 0 (c :: rest)
  = match m (c :: rest) with
    | Some (repl, len) => repl ++ re_sub m 0 (drop (pred len) rest)
    | None => c :: re_sub m 0 rest
    end.
Proof.
  cbn [re_sub]. destruct (m (c :: rest)) as [[repl len]|]; [|done].
  by rewrite re_sub_skip.
Qed.

(** Where the pattern matches at no position, nothing is replaced. *)
Lemma re_sub_no_match m s :
  (forall c rest, c ∈ s -> m (c :: rest) = None) -> re_sub m 0 s = s.
Proof.
  induction s as [|c s IH]; intros Hm; [done|].
  rewrite re_sub_cons, Hm by left. f_equal. apply IH.
  intros c' rest Hc'. apply Hm. by right.
Qed.

Lemma drop_take_while (p : N -> bool) (s : pystr) :
  drop (length (take_while p s)) s = drop_while p s.
Proof.
  induction s as [|c s IH]; cbn; [done|]. destruct (p c); cbn; done.
Qed.

(** *** Neighbours *)

Lemma apart_weaken p prev s : apart p prev s -> apart p false s.
Proof. destruct s as [|c s]; cbn; [done|]. destruct (p c); [|done]. by intros [_ ?]. Qed.

Lemma apart_drop_while p q prev s :
  apart p prev s -> apart p false (drop_while q s).
Proof.
  revert prev. induction s as [|c s IH]; intros prev Hs; cbn; [done|].
  destruct (q c).
  - cbn in Hs. destruct (p c); [destruct Hs as [_ Hs]|]; eauto.
  - eapply apart_weaken, Hs.
Qed.

Lemma apart_no_pair p s : apart p false s -> ~ has_pair p s.
Proof.
  intros Hs (pre & a & b & post & -> & Ha & Hb).
  revert Hs. generalize false.
  induction pre as [|c pre IH]; intros prev; cbn.
  - rewrite Ha, Hb. by intros (_ & ? & _).
  - destruct (p c); [intros [_ Hs]|intros Hs]; eauto.
Qed.

Lemma has_pair_substring p s s' :
  substring_of s' s -> has_pair p s' -> has_pair p s.
Proof.
  intros (pre & post & ->) (pre' & a & b & post' & -> & Ha & Hb).
  exists (pre ++ pre'), a, b, (post' ++ post).
  split; [|done]. by rewrite <- !app_assoc.
Qed.

Lemma strip_substring s : substring_of (strip s) s.
Proof.
  unfold strip.
  destruct (drop_while_split is_space s) as (z & Hz & _).
  destruct (drop_while_split is_space (rev (drop_while is_space s)))
    as (z' & Hz' & _).
  exists z, (rev z').
  apply (f_equal (@rev N)) in Hz'.
  rewrite rev_involutive, rev_app_distr in Hz'.
  rewrite Hz at 1. by rewrite Hz' at 1.
Qed.

(** *** The last two substitutions of [_clean_wikicode] *)

Lemma m_spaces_space c rest :
  is_space c = true ->
  m_spaces (c :: rest)
  = Some ([ord " "], S (length (take_while is_space rest))).
Proof. intros Hc. unfold m_spaces. cbn [take_while]. by rewrite Hc. Qed.

Lemma m_spaces_other c rest : is_space c = false -> m_spaces (c :: rest) = None.
Proof. intros Hc. unfold m_spaces. cbn [take_while]. by rewrite Hc. Qed.

Lemma re_sub_spaces_cons c rest :
  re_sub m_spaces 0 (c :: rest)
  = if is_space c
    then ord " " :: re_sub m_spaces 0 (drop_while is_space rest)
    else c :: re_sub m_spaces 0 rest.
Proof.
  rewrite re_sub_cons. destruct (is_space c) eqn:Hc.
  - rewrite m_spaces_space by done. cbn [pred app].
    by rewrite drop_take_while.
  - by rewrite m_spaces_other.
Qed.

Lemma drop_while_length (p : N -> bool) (s : pystr) :
  length (drop_while p s) <= length s.
Proof. induction s as [|c s IH]; cbn; [done|]. destruct (p c); cbn; lia. Qed.

Lemma space_is_space : is_space (ord " ") = true.
Proof. reflexivity. Qed.

(** After [\s+] is replaced by one space, every whitespace code point is a
    space and no two are neighbours. *)
Lemma re_sub_spaces_apart n s :
  length s <= n ->
  apart is_space false (re_sub m_spaces 0 s)
  /\ forall c, c ∈ re_sub m_spaces 0 s -> is_space c = true -> c = ord " ".
Proof.
  revert s. induction n as [|n IH]; intros [|c rest] Hlen; cbn in Hlen;
    try lia; try (split; [done|by intros ? ?%elem_of_nil]).
  rewrite re_sub_spaces_cons. destruct (is_space c) eqn:Hc.
  - pose proof (drop_while_head is_space rest) as Hhead.
    pose proof (drop_while_length is_space rest) as Hl.
    destruct (drop_while is_space rest) as [|d r] eqn:Hd.
    + cbn [re_sub apart]. rewrite space_is_space. split; [done|].
      intros c' Hc'%list_elem_of_singleton. done.
    + rewrite re_sub_spaces_cons, Hhead.
      destruct (IH r) as [Hap Hall]; [cbn in Hl; lia|].
      split.
      * cbn [apart]. rewrite space_is_space, Hhead. done.
      * intros c' [->|[->|Hc']%elem_of_cons]%elem_of_cons; auto.
        intros. congruence.
  - destruct (IH rest) as [Hap Hall]; [lia|]. split.
    + cbn [apart]. by rewrite Hc.
    + intros c' [->|Hc']%elem_of_cons; [congruence|auto].
Qed.

Lemma m_quotes_other c rest : is_quote c = false -> m_quotes (c :: rest) = None.
Proof.
  intros Hc. unfold m_quotes. change (N.eqb (ord "'")) with is_quote.
  cbn [take_while]. by rewrite Hc.
Qed.

Lemma re_sub_quotes_cons c rest :
  re_sub m_quotes 0 (c :: rest)
  = if is_quote c
    then match take_while is_quote rest with
         | [] => c :: re_sub m_quotes 0 rest
         | _ :: _ => re_sub m_quotes 0 (drop_while is_quote rest)
         end
    else c :: re_sub m_quotes 0 rest.
Proof.
  rewrite re_sub_cons. destruct (is_quote c) eqn:Hc.
  - unfold m_quotes. change (N.eqb (ord "'")) with is_quote.
    cbn [take_while]. rewrite Hc.
    rewrite <- (drop_take_while is_quote rest).
    generalize (take_while is_quote rest) as run.
    intros [|q qs]; cbn [length Nat.leb pred app]; done.
  - by rewrite m_quotes_other.
Qed.

Lemma take_while_nil_head (p : N -> bool) (s : pystr) :
  take_while p s = [] ->
  match s with [] => True | c :: _ => p c = false end.
Proof. destruct s as [|c s]; cbn; [done|]. by destruct (p c). Qed.

(** After runs of two or more apostrophes are removed, no two apostrophes
    are neighbours; the output starts with an apostrophe only if the input
    does. *)
Lemma re_sub_quotes_apart n s :
  length s <= n ->
  apart is_quote false (re_sub m_quotes 0 s)
  /\ (match s with [] => True | c :: _ => is_quote c = false end ->
      apart is_quote true (re_sub m_quotes 0 s)).
Proof.
  revert s. induction n as [|n IH]; intros [|c rest] Hlen; cbn in Hlen;
    try lia; try done.
  rewrite re_sub_quotes_cons. destruct (is_quote c) eqn:Hc.
  - split; [|done].
    destruct (take_while is_quote rest) as [|q qs] eqn:Hrun.
    + apply take_while_nil_head in Hrun.
      destruct (IH rest) as [_ Hap]; [lia|].
      cbn [apart]. rewrite Hc. split; [done|]. by apply Hap.
    + pose proof (drop_while_length is_quote rest).
      apply IH. lia.
  - destruct (IH rest) as [Hap _]; [lia|].
    split; [|intros _]; cbn [apart]; by rewrite Hc.
Qed.

(** Replacing whitespace runs by a space brings no apostrophes together. *)
Lemma re_sub_spaces_keeps_apart n s prev :
  length s <= n ->
  apart is_quote prev s -> apart is_quote prev (re_sub m_spaces 0 s).
Proof.
  revert s prev. induction n as [|n IH]; intros [|c rest] prev Hlen Hs;
    cbn in Hlen; try lia; try done.
  rewrite re_sub_spaces_cons. destruct (is_space c) eqn:Hc.
  - assert (Hq : is_quote c = false).
    { destruct (is_quote c) eqn:Hq; [|done].
      apply N.eqb_eq in Hq. subst c. discriminate Hc. }
    cbn [apart] in *. rewrite Hq in Hs.
    change (is_quote (ord " ")) with false. cbv iota.
    pose proof (drop_while_length is_space rest).
    apply IH; [lia|]. eapply apart_drop_while, Hs.
  - cbn [apart] in *. destruct (is_quote c).
    + destruct Hs as [-> Hs]. split; [done|]. apply IH; [lia|done].
    + apply IH; [lia|done].
Qed.

(** X1.  The result of [_clean_wikicode] has no whitespace at either end,
    its only whitespace code point is the plain space, and no two
    whitespace code points stand side by side. *)
Theorem clean_wikicode_spacing (text : pystr) :
  strip (_clean_wikicode text) = _clean_wikicode text
  /\ (forall c, c ∈ _clean_wikicode text -> is_space c = true -> c = ord " ")
  /\ ~ has_pair is_space (_clean_wikicode text).
Proof.
  unfold _clean_wikicode. cbv zeta.
  set (x := re_sub m_quotes 0 _).
  destruct (re_sub_spaces_apart (length x) x) as [Hap Hall]; [done|].
  split; [apply strip_idemp|]. split.
  - intros c Hc%strip_elem. by apply Hall.
  - intros Hpair. eapply apart_no_pair; [exact Hap|].
    eapply has_pair_substring; [apply strip_substring|exact Hpair].
Qed.

(** X2.  No emphasis marker is left: the result of [_clean_wikicode] never
    holds two apostrophes in a row. *)
Theorem clean_wikicode_no_emphasis (text : pystr) :
  ~ substring_of (u "''") (_clean_wikicode text).
Proof.
  unfold _clean_wikicode. cbv zeta.
  set (x := re_sub m_link 0 _).
  destruct (re_sub_quotes_apart (length x) x) as [Hap _]; [done|].
  apply (re_sub_spaces_keeps_apart (length (re_sub m_quotes 0 x))) in Hap;
    [|done].
  intros Hsub. eapply apart_no_pair; [exact Hap|].
  eapply has_pair_substring; [apply strip_substring|].
  destruct Hsub as (pre & post & ->).
  exists pre, (ord "'"), (ord "'"), post. by split.
Qed.

Lemma startswith_head a p c s :
  c <> a -> startswith (a :: p) (c :: s) = false.
Proof. intros Hne. cbn. apply N.eqb_neq in Hne. by rewrite N.eqb_sym, Hne. Qed.

Lemma re_sub_spaces_single s prev :
  (forall c, c ∈ s -> is_space c = true -> c = ord " ") ->
  apart is_space prev s ->
  re_sub m_spaces 0 s = s.
Proof.
  revert prev. induction s as [|c rest IH]; intros prev Hall Hap; [done|].
  rewrite re_sub_spaces_cons. cbn [apart] in Hap.
  destruct (is_space c) eqn:Hc.
  - destruct Hap as [_ Hap]. rewrite (Hall c) by (done || left).
    assert (Hd : drop_while is_space rest = rest).
    { apply drop_while_fixed. destruct rest as [|d r]; [done|].
      cbn [apart] in Hap. destruct (is_space d); [by destruct Hap|done]. }
    rewrite Hd. f_equal. eapply IH; [|exact Hap].
    intros c' Hc'. apply Hall. by right.
  - f_equal. eapply IH; [|exact Hap]. intros c' Hc'. apply Hall. by right.
Qed.

Lemma no_pair_apart p s : ~ has_pair p s -> apart p false s.
Proof.
  induction s as [|c s IH]; intros Hno; [done|]. cbn [apart].
  assert (Htail : apart p false s).
  { apply IH. intros (pre & a & b & post & -> & Ha & Hb). apply Hno.
    by exists (c :: pre), a, b, post. }
  destruct (p c) eqn:Hc; [|done]. split; [done|].
  destruct s as [|d s]; [done|]. cbn [apart] in *.
  destruct (p d) eqn:Hd; [|done].
  destruct Hno. by exists [], c, d, s.
Qed.

(** X3.  Text without braces, square brackets and apostrophes, whose only
    whitespace is single spaces between words, goes through
    [_clean_wikicode] unchanged. *)
Theorem clean_wikicode_plain_text (text : pystr) :
  plain text ->
  ~ has_pair is_space text ->
  strip text = text ->
  _clean_wikicode text = text.
Proof.
  intros Hplain Hpair Hstrip. unfold _clean_wikicode. cbv zeta.
  rewrite (re_sub_no_match m_template).
  2:{ intros c rest Hc. unfold m_template.
      change (u "{{") with [ord "{"; ord "{"].
      by rewrite startswith_head by apply (Hplain c Hc). }
  rewrite (re_sub_no_match m_piped_link).
  2:{ intros c rest Hc. unfold m_piped_link.
      change (u "[[") with [ord "["; ord "["].
      by rewrite startswith_head by apply (Hplain c Hc). }
  rewrite (re_sub_no_match m_link).
  2:{ intros c rest Hc. unfold m_link.
      change (u "[[") with [ord "["; ord "["].
      by rewrite startswith_head by apply (Hplain c Hc). }
  rewrite (re_sub_no_match m_quotes).
  2:{ intros c rest Hc. apply m_quotes_other. unfold is_quote.
      apply N.eqb_neq. intros Heq. by apply (Hplain c Hc). }
  rewrite (re_sub_spaces_single text false); [done| |by apply no_pair_apart].
  intros c Hc. by apply (Hplain c Hc).
Qed.

(** *** [re.split(r"[.!?]\s+", txt)] *)

Lemma split_sentences_from_pieces s cur skipping p :
  (skipping = true -> cur = []) ->
  p ∈ split_sentences_from cur skipping s ->
  (exists a post, s = a ++ post /\ p = rev cur ++ a)
  \/ substring_of p s.
Proof.
  revert cur skipping. induction s as [|c rest IH]; intros cur skipping Hcur;
    cbn [split_sentences_from].
  - intros ->%list_elem_of_singleton. left. exists [], [].
    split; [done|by rewrite app_nil_r].
  - destruct (skipping && is_space c) eqn:Hskip.
    + apply andb_true_iff in Hskip as [-> _]. rewrite Hcur by done.
      intros Hp. right.
      destruct (IH [] true (fun _ => eq_refl) Hp)
        as [(a & post & -> & ->)|(pre & post & ->)].
      * by exists [c], post.
      * by exists (c :: pre), post.
    + destruct (is_terminator c && _).
      * intros [->|Hp]%elem_of_cons.
        { left. exists [], (c :: rest). split; [done|by rewrite app_nil_r]. }
        right.
        destruct (IH [] true (fun _ => eq_refl) Hp)
          as [(a & post & -> & ->)|(pre & post & ->)].
        -- by exists [c], post.
        -- by exists (c :: pre), post.
      * intros Hp.
        destruct (IH (c :: cur) false (fun H => ltac:(discriminate H)) Hp)
          as [(a & post & -> & ->)|(pre & post & ->)].
        -- left. exists (c :: a), post. cbn. by rewrite <- app_assoc.
        -- right. by exists (c :: pre), post.
Qed.

(** X9.  The sentence segmentation of line 283 only cuts: every piece is a
    contiguous fragment of the article. *)
Theorem split_sentences_fragments (txt p : pystr) :
  p ∈ split_sentences txt -> substring_of p txt.
Proof.
  intros Hp. unfold split_sentences in Hp.
  destruct (split_sentences_from_pieces txt [] false p) as
    [(a & post & -> & ->)|Hsub]; [done|done| |done].
  by exists [], post.
Qed.

Section CorpusFacts.
Context (W : World).

Lemma collect_entries_facts max_articles articles entries :
  (Z.of_nat (length articles) < Z.max max_articles 1)%Z ->
  exists added,
    fst (collect_entries max_articles articles entries) = articles ++ added
    /\ Forall (fun a => exists e, e ∈ entries /\ snippet_of e = Some a) added
    /\ if snd (collect_entries max_articles articles entries)
       then (Z.of_nat (length (articles ++ added)) <= Z.max max_articles 1)%Z
            /\ (max_articles <= Z.of_nat (length (articles ++ added)))%Z
       else (Z.of_nat (length (articles ++ added)) < Z.max max_articles 1)%Z.
Proof.
  revert articles.
  induction entries as [|e entries IH]; intros articles Hlt; cbn [collect_entries].
  - exists []. rewrite app_nil_r. cbn. auto.
  - set (articles' := match summary e with
                      | Some s => articles ++ [s]
                      | None => _
                      end).
    assert (Hadd : exists one, articles' = articles ++ one
                     /\ length one <= 1
                     /\ Forall (fun a => snippet_of e = Some a) one).
    { unfold articles', snippet_of.
      destruct (summary e) as [s|]; [exists [s]; by repeat constructor|].
      destruct (description e) as [d|]; [exists [d]; by repeat constructor|].
      exists []. rewrite app_nil_r. by repeat constructor. }
    destruct Hadd as (one & Hone & Hlen & Hsnip).
    assert (Hprov : Forall (fun a => exists e0, e0 ∈ e :: entries
                                        /\ snippet_of e0 = Some a) one).
    { eapply Forall_impl; [exact Hsnip|]. intros a Ha. exists e. split; [left|done]. }
    destruct (max_articles <=? Z.of_nat (length articles'))%Z eqn:Hcap.
    + apply Z.leb_le in Hcap. exists one. rewrite <- Hone. cbn [fst snd].
      split; [done|]. split; [done|].
      rewrite Hone, length_app in *. lia.
    + apply Z.leb_gt in Hcap.
      destruct (IH articles') as (added & Heq & Hall & Hres).
      { lia. }
      exists (one ++ added). rewrite app_assoc, <- Hone. split; [done|].
      split; [|done].
      apply Forall_app. split; [done|].
      eapply Forall_impl; [exact Hall|].
      intros a (e0 & He0 & Ha). exists e0. split; [by right|done].
Qed.

Lemma fetch_feeds_facts max_articles articles feeds t :
  (Z.of_nat (length articles) < Z.max max_articles 1)%Z ->
  exists added new,
    fetch_feeds W max_articles articles feeds t
    = (Ok (articles ++ added), t ++ new)
    /\ (Z.of_nat (length (articles ++ added)) <= Z.max max_articles 1)%Z
    /\ Forall (from_feeds W feeds) added
    /\ Forall feed_event new
    /\ parsed_feeds new `prefix_of` feeds
    /\ ((Z.of_nat (length (articles ++ added)) < max_articles)%Z ->
        parsed_feeds new = feeds).
Proof.
  revert articles t.
  induction feeds as [|feed feeds IH]; intros articles t Hlt.
  - exists [], []. rewrite !app_nil_r. repeat split; auto. lia.
  - cbn [fetch_feeds]. unfold bind at 1.
    unfold try_except, bind, feed_entries, ret.
    destruct (feedparser_parse W t feed) as [entries|e] eqn:Hparse.
    + destruct (collect_entries_facts max_articles articles entries Hlt)
        as (added & Heq & Hall & Hres).
      destruct (collect_entries max_articles articles entries)
        as [found returned].
      cbn [fst snd] in *. subst found.
      assert (Hprov : Forall (from_feeds W (feed :: feeds)) added).
      { eapply Forall_impl; [exact Hall|]. intros a (e0 & He0 & Ha).
        exists t, feed, entries, e0. split; [left|done]. }
      destruct returned.
      * exists added, [FeedParse feed]. split; [done|]. split; [lia|].
        split; [done|]. split.
        { constructor; [left; by eexists|constructor]. }
        split.
        { cbn. by apply prefix_cons, prefix_nil. }
        lia.
      * destruct (IH (articles ++ added) (t ++ [FeedParse feed]) Hres)
          as (added' & new' & -> & Hlen & Hall' & Hev & Hpre & Hfull).
        exists (added ++ added'), (FeedParse feed :: new').
        rewrite <- !app_assoc. cbn [app]. rewrite !app_assoc in *.
        split; [by rewrite <- !app_assoc|].
        rewrite <- !app_assoc in *.
        split; [done|]. split.
        { apply Forall_app. split; [done|].
          eapply Forall_impl; [exact Hall'|].
          intros a (t0 & f & es & e0 & Hf & ?). exists t0, f, es, e0.
          split; [by right|done]. }
        split.
        { constructor; [left; by eexists|done]. }
        split.
        { cbn. by apply prefix_cons. }
        intros Hshort. cbn. f_equal. by apply Hfull.
    + unfold print, emit. cbn [fst snd].
      destruct (IH articles
                  ((t ++ [FeedParse feed])
                     ++ [Print (u "RSS fetch error: " ++ exn_str e)]) Hlt)
        as (added' & new' & -> & Hlen & Hall' & Hev & Hpre & Hfull).
      exists added',
        (FeedParse feed :: Print (u "RSS fetch error: " ++ exn_str e) :: new').
      rewrite <- !app_assoc. cbn [app].
      split; [done|]. split; [done|]. split.
      { eapply Forall_impl; [exact Hall'|].
        intros a (t0 & f & es & e0 & Hf & ?). exists t0, f, es, e0.
        split; [by right|done]. }
      split.
      { constructor; [left; by eexists|].
        constructor; [right; by eexists|done]. }
      split.
      { cbn. by apply prefix_cons. }
      intros Hshort. cbn. f_equal. by apply Hfull.
Qed.

(** X10.  For every [max_articles], zero and negative ones too, and
    whatever the feeds hold or raise, [fetch_articles_from_rss] returns a
    list and raises nothing; the list has at most [max_articles] snippets,
    and at most one when [max_articles] is below 1. *)
Theorem fetch_articles_never_raises_bound (self : RSSScraper)
    (max_articles : Z) (t : trace) :
  exists articles t',
    fetch_articles_from_rss W self max_articles t = (Ok articles, t')
    /\ (Z.of_nat (length articles) <= Z.max max_articles 1)%Z.
Proof.
  destruct (fetch_feeds_facts max_articles [] (rss_feeds self) t)
    as (added & new & Heq & Hlen & _); [cbn; lia|].
  by eexists _, _.
Qed.

(** X11.  Every snippet [fetch_articles_from_rss] returns was held by an
    entry of one of the scraper's feeds: it is the summary of the entry, or
    its description when the entry has no summary. *)
Theorem fetch_articles_provenance (self : RSSScraper) (max_articles : Z)
    (t : trace) :
  exists articles t',
    fetch_articles_from_rss W self max_articles t = (Ok articles, t')
    /\ Forall (from_feeds W (rss_feeds self)) articles.
Proof.
  destruct (fetch_feeds_facts max_articles [] (rss_feeds self) t)
    as (added & new & Heq & _ & Hall & _); [cbn; lia|].
  by eexists _, _.
Qed.

(** X12.  [fetch_articles_from_rss] only parses feeds and prints their
    errors.  It parses the feeds of the scraper in their order, each at
    most once, and stops early only at the cap: when it returns fewer than
    [max_articles] snippets it has parsed every feed. *)
Theorem fetch_articles_feed_order (self : RSSScraper) (max_articles : Z)
    (t : trace) :
  exists articles new,
    fetch_articles_from_rss W self max_articles t = (Ok articles, t ++ new)
    /\ Forall feed_event new
    /\ parsed_feeds new `prefix_of` rss_feeds self
    /\ ((Z.of_nat (length articles) < max_articles)%Z ->
        parsed_feeds new = rss_feeds self).
Proof.
  destruct (fetch_feeds_facts max_articles [] (rss_feeds self) t)
    as (added & new & Heq & _ & _ & Hev & Hpre & Hfull); [cbn; lia|].
  by eexists _, _.
Qed.
End CorpusFacts.

Section CandidateFacts.
Context `{Runtime} (W : World) (df : list LexRow).

Lemma elem_of_advanced_lemmas (s : pystr) :
  s ∈ advanced_lemmas df ->
  exists r, r ∈ df /\ qualifies r /\ s = lower (word r).
Proof.
  unfold advanced_lemmas.
  rewrite elem_of_list_to_set, list_elem_of_In, in_map_iff.
  intros (r & <- & Hr). apply filter_In in Hr as [Hin Hm].
  exists r. rewrite list_elem_of_In, <- rare_mask_qualifies. auto.
Qed.

Lemma candidates_facts (text : pystr) (t : trace) :
  exists cands new,
    clean_and_count_words W df text t = (Ok cands, t ++ new)
    /\ Forall (fun e => exists line, e = Print line) new
    /\ Forall (fun c => (exists r, r ∈ df /\ qualifies r
                                   /\ fst c = lower (word r))
                        /\ (fst c ∉ static_excluded)
                        /\ snd c ∈ content_pos) cands
    /\ (spacy_load W t = None -> cands = []).
Proof.
  unfold clean_and_count_words. destruct (spacy_load W t) as [nlp|].
  - exists (map candidate_of
              (List.filter (keeps df (excluded_words W t)) (nlp text))), [].
    rewrite app_nil_r. split; [done|]. split; [constructor|].
    split; [|done].
    rewrite List.Forall_forall. intros c Hc.
    apply in_map_iff in Hc as (tok & <- & Htok).
    apply filter_In in Htok as [_ Hk]. unfold keeps in Hk.
    rewrite !andb_true_iff, negb_true_iff, !bool_decide_eq_true,
      bool_decide_eq_false in Hk.
    destruct Hk as ((((_ & _) & Hadv) & Hpos) & Hex). cbn.
    split; [by apply elem_of_advanced_lemmas|]. split; [|done].
    intros Hin. apply Hex. unfold excluded_words.
    apply elem_of_union. by left.
  - exists [], [Print (u "spaCy unavailable → skipping this article")].
    split; [done|]. split; [|done]. constructor; [by eexists|constructor].
Qed.

(** X13.  Every candidate that [clean_and_count_words] returns is the
    lowercased word of a lexicon row with [freq_C2 > 0], [freq_total < 100]
    and more than 6 characters, is none of the words of the built-in
    exclusion list, and has one of the four content parts of speech. *)
Theorem candidates_come_from_lexicon (text : pystr) (t t' : trace)
    (cands : list (pystr * pystr)) :
  clean_and_count_words W df text t = (Ok cands, t') ->
  Forall (fun c =>
            (exists r, r ∈ df /\ qualifies r /\ fst c = lower (word r))
            /\ (fst c ∉ static_excluded)
            /\ snd c ∈ [u "NOUN"; u "VERB"; u "ADJ"; u "ADV"]) cands.
Proof.
  intros Hrun.
  destruct (candidates_facts text t) as (cands' & new & Heq & _ & Hall & _).
  rewrite Hrun in Heq. by injection Heq as -> _.
Qed.
End CandidateFacts.

Lemma placeholder_not_empty : placeholder <> [].
Proof. intros Heq. vm_compute in Heq. discriminate Heq. Qed.

Lemma quiet_pipeline e : quiet_event e -> pipeline_event e.
Proof. by intros [[line ->]| ->]. Qed.

Lemma feed_pipeline e : feed_event e -> pipeline_event e.
Proof. by intros [[f ->]|[msg ->]]. Qed.

Section PipelineFacts.
Context `{Runtime} (W : World) (df : list LexRow).

Lemma process_articles_facts n i self acc articles t :
  exists words new,
    process_articles W df n i self acc articles t
    = (Ok ({| rss_feeds := rss_feeds self;
              article_sentences :=
                article_sentences self ++ flat_map split_sentences articles |},
           acc ++ words),
       t ++ new)
    /\ Forall quiet_event new
    /\ Forall (admitted df) words
    /\ ((forall t0, spacy_load W t0 = None) -> words = []).
Proof.
  revert i self acc t.
  induction articles as [|txt articles IH]; intros i self acc t.
  - exists [], []. cbn. rewrite !app_nil_r. destruct self. auto.
  - cbn [process_articles flat_map]. unfold bind at 1.
    unfold print at 1, emit at 1. unfold bind at 1.
    destruct (candidates_facts W df txt
                (t ++ [Print (u "Processing article " ++ of_nat i
                                ++ u "/" ++ of_nat n)]))
      as (cands & new1 & -> & Hnew1 & Hcands & Hnone).
    unfold bind at 1. unfold emit at 1.
    match goal with |- context [process_articles W df n (S i) ?s ?a articles ?t0] =>
      destruct (IH (S i) s a t0) as (words & new & -> & Hnew & Hwords & Hnone')
    end.
    cbn [rss_feeds article_sentences].
    exists (cands ++ words),
      ([Print (u "Processing article " ++ of_nat i ++ u "/" ++ of_nat n)]
         ++ new1 ++ [Sleep 1] ++ new).
    rewrite <- !app_assoc. split; [done|]. split; [|split].
    + apply Forall_app. split; [constructor; [left; by eexists|constructor]|].
      apply Forall_app. split.
      { eapply Forall_impl; [exact Hnew1|]. intros e He. by left. }
      constructor; [by right|done].
    + apply Forall_app. split; [|done]. exact Hcands.
    + intros Hno. rewrite Hnone by apply Hno. by rewrite Hnone'.
Qed.

Lemma StronglySorted_map {A B} (R : A -> A -> Prop) (R' : B -> B -> Prop)
    (f : A -> B) (l : list A) :
  (forall x y, R x y -> R' (f x) (f y)) ->
  StronglySorted R l -> StronglySorted R' (map f l).
Proof.
  intros Hf. induction 1 as [|x l Hs IH Hall]; cbn; constructor; [done|].
  rewrite List.Forall_forall in *. intros y Hy.
  apply in_map_iff in Hy as (z & <- & Hz). auto.
Qed.

Lemma NoDup_submseteq_l {A} (l k : list A) : l ⊆+ k -> NoDup k -> NoDup l.
Proof.
  intros [k' Hk]%submseteq_Permutation Hnd. rewrite Hk in Hnd.
  by apply NoDup_app in Hnd as [? _].
Qed.

Lemma rarity_sample_facts (all_words : list (pystr * pystr)) :
  exists sample,
    rarity_sample W all_words = Ok sample
    /\ length sample <= 30
    /\ NoDup sample
    /\ sample ⊆+ uniques all_words
    /\ StronglySorted (key_le fst) sample.
Proof.
  unfold rarity_sample, random_sample.
  set (k := min 30 (length (uniques all_words))).
  assert (Hk : k <= length (uniques all_words)) by lia.
  apply Nat.leb_le in Hk as Hkb. rewrite Hkb. cbn [rbind].
  eexists. split; [reflexivity|].
  assert (Hsub : sorted fst (sample_from (randbelow W) 0 (uniques all_words) k)
                 ⊆+ uniques all_words).
  { rewrite sorted_perm. apply sample_from_submseteq. }
  split; [|split; [|split]].
  - rewrite sorted_perm, sample_from_length by done. lia.
  - eapply NoDup_submseteq_l; [exact Hsub|apply uniques_NoDup].
  - done.
  - apply sorted_sorted.
Qed.

Lemma fetch_definition_outcome word :
  outcome pipeline_event any (unbound_lexicon W) (fetch_definition W word).
Proof.
  intros t. destruct (fetch_definition_facts W word t) as (r & new & Heq & Hnew & Hr).
  exists r, new. split; [done|]. split.
  - destruct Hnew as [->|[->| ->]]; repeat constructor.
  - destruct r; [done|]. destruct Hr as (-> & Hdefs & _). by split.
Qed.

Lemma find_example_sentence_outcome self word :
  outcome pipeline_event any none (find_example_sentence W self word).
Proof.
  intros t. destruct (find_example_sentence_facts W self word t)
    as (s & new & Heq & Hshape).
  exists (Ok s), new. split; [done|]. split; [|done].
  destruct Hshape as [[-> _]|[-> _]]; repeat constructor.
Qed.

Lemma translation_outcome definition :
  definition <> [] -> definition <> placeholder ->
  outcome pipeline_event any none
    (try_except
       (bind (post_translate W definition)
          (fun tr => lift (get tr (u "translatedText") (JStr []))))
       (fun _ => ret (JStr []))).
Proof.
  intros Hne Hnp. apply (outcome_try _ _ any).
  - apply (outcome_bind _ any).
    + intros t. eexists (translate W t definition), [_].
      split; [reflexivity|]. split.
      * constructor; [|constructor]. cbn. done.
      * by destruct (translate W t definition).
    + intros tr _. apply outcome_lift. by destruct (get _ _ _).
  - intros e _. by apply outcome_ret.
Qed.

Lemma make_flashcards_outcome self flashcards sample :
  outcome pipeline_event
    (fun cards => exists added,
         cards = flashcards ++ added
         /\ map card_word added = map fst sample
         /\ Forall well_formed_card added)
    (unbound_lexicon W)
    (make_flashcards W self flashcards sample).
Proof.
  revert flashcards. induction sample as [|[word pos] sample IH]; intros flashcards.
  - cbn. apply outcome_ret. exists []. by rewrite app_nil_r.
  - cbn [make_flashcards].
    apply (outcome_bind _ any); [apply fetch_definition_outcome|].
    intros d _. cbv zeta.
    set (definition := if nonempty d then d else placeholder).
    assert (Hdef : definition <> []).
    { unfold definition. destruct d; cbn [nonempty]; [|done].
      apply placeholder_not_empty. }
    apply (outcome_bind _ any).
    { eapply outcome_weaken; [apply find_example_sentence_outcome|auto..].
      intros e []. }
    intros sentence _.
    apply (outcome_bind _
             (fun english => definition = placeholder -> english = JStr [])).
    { destruct (nonempty definition && negb (bool_decide (definition = placeholder)))
        eqn:Hcond.
      - apply andb_true_iff in Hcond as [_ Hnp].
        apply negb_true_iff, bool_decide_eq_false in Hnp.
        eapply outcome_weaken; [by apply translation_outcome|auto..].
        + intros a _ Heq. done.
        + intros e [].
      - apply outcome_ret. done. }
    intros english Henglish.
    apply (outcome_bind _ any).
    { by apply outcome_emit. }
    intros _ _.
    eapply outcome_weaken; [apply IH|auto..].
    intros cards (added & -> & Hwords & Hall).
    eexists (_ :: added). rewrite <- app_assoc. split; [reflexivity|].
    cbn. split; [by f_equal|]. constructor; [|done]. by split.
Qed.

Lemma cards_sorted (sample : list (pystr * pystr)) (cards : list Flashcard) :
  map card_word cards = map fst sample ->
  StronglySorted (key_le fst) sample ->
  StronglySorted (key_le card_word) cards.
Proof.
  revert cards. induction sample as [|c sample IH]; intros [|card cards];
    cbn; try done; [constructor|].
  intros [= Hw Hrest] Hs. apply StronglySorted_inv in Hs as [Hs Hall].
  constructor; [by apply IH|].
  rewrite List.Forall_forall in *. intros x Hx.
  assert (Hin : In (card_word x) (map fst sample))
    by (rewrite <- Hrest; by apply in_map).
  apply in_map_iff in Hin as (y & Hy & Hin).
  specialize (Hall y Hin). unfold key_le in *. by rewrite Hw, <- Hy.
Qed.

(** What a run can do. *)
Lemma run_facts (self : RSSScraper) (max_articles : Z) (t : trace) :
  exists r new,
    run W df self max_articles t = (r, t ++ new)
    /\ match r with
       | Raise e => unbound_lexicon W e /\ Forall pipeline_event new
       | Ok self' =>
           rss_feeds self' = rss_feeds self
           /\ (exists articles,
                  fst (fetch_articles_from_rss W self max_articles t)
                  = Ok articles
                  /\ article_sentences self'
                     = article_sentences self
                         ++ flat_map split_sentences articles)
           /\ ((exists before,
                   Forall pipeline_event before
                   /\ (new = before ++ [Print (u "No articles fetched.")]
                       \/ new = before ++ [Print (u "Nothing to process.")]))
               \/ (exists before cards,
                      new = before
                              ++ [WriteFile output_path
                                    (output_header
                                       ++ concat (map output_line cards))]
                      /\ Forall pipeline_event before
                      /\ length cards <= 30
                      /\ Forall well_formed_card cards
                      /\ StronglySorted (key_le card_word) cards))
       end.
Proof.
  unfold run. unfold bind at 1.
  destruct (fetch_feeds_facts W max_articles [] (rss_feeds self) t)
    as (articles & new0 & Hfetch & _ & _ & Hev0 & _); [cbn; lia|].
  cbn [app] in Hfetch. unfold fetch_articles_from_rss. rewrite Hfetch.
  cbn [fst].
  assert (Hp0 : Forall pipeline_event new0)
    by (eapply Forall_impl; [exact Hev0|apply feed_pipeline]).
  destruct articles as [|a articles].
  { unfold bind, print, emit, ret. eexists _, _. rewrite <- app_assoc.
    split; [reflexivity|]. split; [done|]. split.
    - exists []. split; [done|]. by rewrite app_nil_r.
    - left. exists new0. split; [done|]. by left. }
  unfold bind at 1.
  destruct (process_articles_facts (length (a :: articles)) 1 self []
              (a :: articles) (t ++ new0))
    as (words & new1 & -> & Hev1 & _ & _).
  cbn [fst snd app].
  assert (Hp1 : Forall pipeline_event new1)
    by (eapply Forall_impl; [exact Hev1|apply quiet_pipeline]).
  unfold bind at 1. unfold print at 1, emit at 1.
  destruct words as [|c words].
  { unfold bind, print, emit, ret. eexists _, _. rewrite <- !app_assoc.
    split; [reflexivity|]. split; [done|]. split.
    - by eexists.
    - left. exists (new0 ++ new1 ++ [Print (u "Total candidate tokens: " ++ of_nat 0)]).
      split; [|right; by rewrite <- !app_assoc].
      apply Forall_app. split; [done|]. apply Forall_app. split; [done|].
      by repeat constructor. }
  destruct (rarity_sample_facts (c :: words))
    as (sample & -> & Hlen & _ & _ & Hsorted).
  unfold bind at 1. unfold lift at 1.
  unfold bind at 1. unfold print at 1, emit at 1.
  unfold bind at 1. unfold print at 1, emit at 1.
  unfold bind at 1. unfold print at 1, emit at 1.
  unfold bind at 1.
  match goal with |- context [make_flashcards W ?s [] sample ?t0] =>
    destruct (make_flashcards_outcome s [] sample t0)
      as (r & new2 & -> & Hev2 & Hr)
  end.
  assert (Hbefore : Forall pipeline_event
            (new0 ++ new1
               ++ [Print (u "Total candidate tokens: "
                            ++ of_nat (length (c :: words)))]
               ++ banner ++ new2)).
  { apply Forall_app. split; [done|]. apply Forall_app. split; [done|].
    apply Forall_app. split; [by repeat constructor|].
    apply Forall_app. split; [by repeat constructor|done]. }
  destruct r as [cards|e].
  - destruct Hr as (added & -> & Hwords & Hcards). cbn [app].
    unfold bind, emit, ret.
    exists (Ok {| rss_feeds := rss_feeds self;
                  article_sentences :=
                    article_sentences self
                      ++ flat_map split_sentences (a :: articles) |}),
      ((new0 ++ new1
          ++ [Print (u "Total candidate tokens: "
                       ++ of_nat (length (c :: words)))]
          ++ banner ++ new2)
         ++ [WriteFile output_path
               (output_header ++ concat (map output_line added))]).
    split.
    { unfold banner. rewrite <- !app_assoc. cbn [app]. reflexivity. }
    split; [done|]. split; [by eexists|].
    right. exists (new0 ++ new1
                     ++ [Print (u "Total candidate tokens: "
                                  ++ of_nat (length (c :: words)))]
                     ++ banner ++ new2), added.
    split; [done|]. split; [exact Hbefore|]. split.
    { apply (f_equal length) in Hwords. rewrite !length_map in Hwords. lia. }
    split; [done|]. by eapply cards_sorted.
  - exists (Raise e),
      (new0 ++ new1
         ++ [Print (u "Total candidate tokens: "
                      ++ of_nat (length (c :: words)))]
         ++ banner ++ new2).
    split.
    { unfold banner. rewrite <- !app_assoc. cbn [app]. reflexivity. }
    split; [done|]. exact Hbefore.
Qed.
End PipelineFacts.

Lemma pipeline_not_write e : pipeline_event e -> ~ is_write e.
Proof. intros He (p & c & ->). exact He. Qed.

(** ** The terminal states of a run *)

Lemma bind_raise_inv {A B} (m : M A) (k : A -> M B) (t t' : trace) (e : exn) :
  bind m k t = (Raise e, t') ->
  m t = (Raise e, t')
  \/ exists a t1, m t = (Ok a, t1) /\ k a t1 = (Raise e, t').
Proof.
  unfold bind. destruct (m t) as [[a|e0] t1]; intros Hk.
  - right. by exists a, t1.
  - injection Hk as -> ->. by left.
Qed.

Section TerminalStates.
Context `{Runtime} (W : World) (df : list LexRow).

(** With candidates, the run draws the sample, prints the banner and goes
    on to the words. *)
Lemma run_with_candidates (self self' : RSSScraper) (max_articles : Z)
    (t t1 t2 : trace) (articles : list pystr)
    (all_words : list (pystr * pystr)) :
  fetch_articles_from_rss W self max_articles t = (Ok articles, t1) ->
  process_articles W df (length articles) 1 self [] articles t1
  = (Ok (self', all_words), t2) ->
  all_words <> [] ->
  exists sample,
    rarity_sample W all_words = Ok sample
    /\ run W df self max_articles t
       = bind (make_flashcards W self' [] sample)
           (fun flashcards =>
              bind (emit (WriteFile output_path
                            (output_header
                               ++ concat (map output_line flashcards))))
                (fun _ => ret self'))
           (t2 ++ [Print (u "Total candidate tokens: "
                            ++ of_nat (length all_words))]
               ++ banner).
Proof.
  intros Hfetch Hprocess Hwords.
  destruct (rarity_sample_facts W all_words) as (sample & Hsample & _).
  exists sample. split; [done|].
  unfold run. unfold bind at 1. rewrite Hfetch.
  destruct articles as [|a articles].
  { cbn [process_articles] in Hprocess. unfold ret in Hprocess.
    injection Hprocess as _ <- _. done. }
  unfold bind at 1. rewrite Hprocess. cbn [fst snd].
  unfold bind at 1. unfold print at 1, emit at 1.
  destruct all_words as [|c all_words]; [done|].
  rewrite Hsample. unfold bind at 1. unfold lift at 1.
  unfold bind at 1. unfold print at 1, emit at 1.
  unfold bind at 1. unfold print at 1, emit at 1.
  unfold bind at 1. unfold print at 1, emit at 1.
  unfold banner. rewrite <- !app_assoc. cbn [app]. reflexivity.
Qed.

(** With candidates, a run that ends normally ends by writing the file. *)
Lemma run_candidates_goes_on (self self' : RSSScraper) (max_articles : Z)
    (t t1 t2 : trace) (articles : list pystr)
    (all_words : list (pystr * pystr)) :
  fetch_articles_from_rss W self max_articles t = (Ok articles, t1) ->
  process_articles W df (length articles) 1 self [] articles t1
  = (Ok (self', all_words), t2) ->
  all_words <> [] ->
  exists r rest,
    run W df self max_articles t
    = (r, t2 ++ [Print (u "Total candidate tokens: "
                          ++ of_nat (length all_words))]
             ++ banner ++ rest)
    /\ forall s, r = Ok s ->
         exists before cards,
           rest = before
                    ++ [WriteFile output_path
                          (output_header ++ concat (map output_line cards))].
Proof.
  intros Hfetch Hprocess Hwords.
  destruct (run_with_candidates self self' max_articles t t1 t2 articles
              all_words Hfetch Hprocess Hwords) as (sample & _ & ->).
  unfold bind at 1.
  match goal with |- context [make_flashcards W self' [] sample ?t0] =>
    destruct (make_flashcards_outcome W self' [] sample t0)
      as (r & new & -> & _ & _)
  end.
  destruct r as [cards|e].
  - unfold bind, emit, ret.
    exists (Ok self'),
      (new ++ [WriteFile output_path
                 (output_header ++ concat (map output_line cards))]).
    split; [by rewrite <- !app_assoc|]. intros s _. by exists new, cards.
  - exists (Raise e), new. split; [by rewrite <- !app_assoc|]. done.
Qed.

(** C2 (amended).  When candidates were extracted but no pair occurs
    exactly once in the batch, the run does not end early and reports no
    terminal state of its own: after the candidate total it prints the
    banner of the results, resolves no word, and writes the output file,
    which holds the header line only.  Only two states are reported
    distinctly and end the run without writing the file: no articles
    fetched ("No articles fetched.") and no candidates extracted ("Nothing
    to process.").  Whenever candidates were extracted the run goes on to
    the banner, and if it ends normally it has ended by writing the file. *)
Theorem run_no_rarities_writes_header (self self' : RSSScraper)
    (max_articles : Z) (t t1 t2 : trace) (articles : list pystr)
    (all_words : list (pystr * pystr)) :
  fetch_articles_from_rss W self max_articles t = (Ok articles, t1) ->
  process_articles W df (length articles) 1 self [] articles t1
  = (Ok (self', all_words), t2) ->
  (all_words <> [] ->
   (forall p, occurrences p all_words <> 1) ->
   run W df self max_articles t
   = (Ok self',
      t2 ++ [Print (u "Total candidate tokens: "
                      ++ of_nat (length all_words))]
         ++ banner
         ++ [WriteFile output_path output_header]))
  /\ (articles = [] ->
      run W df self max_articles t
      = (Ok self', t2 ++ [Print (u "No articles fetched.")]))
  /\ (articles <> [] ->
      all_words = [] ->
      run W df self max_articles t
      = (Ok self',
         t2 ++ [Print (u "Total candidate tokens: " ++ of_nat 0)]
            ++ [Print (u "Nothing to process.")]))
  /\ (all_words <> [] ->
      exists r rest,
        run W df self max_articles t
        = (r, t2 ++ [Print (u "Total candidate tokens: "
                              ++ of_nat (length all_words))]
                 ++ banner ++ rest)
        /\ forall s, r = Ok s ->
             exists before cards,
               rest = before
                        ++ [WriteFile output_path
                              (output_header
                                 ++ concat (map output_line cards))]).
Proof.
  intros Hfetch Hprocess. split; [|split; [|split]].
  - intros Hwords Hocc. apply (run_no_rarities W df self self' max_articles
                                 t t1 t2 articles all_words); try done.
    intros ->. cbn [process_articles] in Hprocess. unfold ret in Hprocess.
    injection Hprocess as _ <- _. done.
  - intros ->. cbn [process_articles] in Hprocess. unfold ret in Hprocess.
    injection Hprocess as <- _ <-. by apply run_no_articles.
  - intros Harticles ->.
    by apply (run_no_candidates W df self self' max_articles t t1 t2 articles).
  - by apply (run_candidates_goes_on self self' max_articles t t1 t2 articles).
Qed.

(** *** A run on one article with one candidate *)

(** A candidate is only found when the tagger was loaded: nothing was
    printed. *)
Lemma clean_and_count_words_found (text : pystr) (t : trace)
    (c : pystr * pystr) (cands : list (pystr * pystr)) :
  fst (clean_and_count_words W df text t) = Ok (c :: cands) ->
  snd (clean_and_count_words W df text t) = t.
Proof.
  unfold clean_and_count_words. by destruct (spacy_load W t).
Qed.

Lemma run_one_candidate_steps (self : RSSScraper) (max_articles : Z)
    (t t1 : trace) (txt word pos : pystr) :
  fetch_articles_from_rss W self max_articles t = (Ok [txt], t1) ->
  fst (clean_and_count_words W df txt
         (t1 ++ [Print (u "Processing article 1/1")]))
  = Ok [(word, pos)] ->
  run W df self max_articles t
  = bind (make_flashcards W (after_article self txt) [] [(word, pos)])
      (fun flashcards =>
         bind (emit (WriteFile output_path
                       (output_header
                          ++ concat (map output_line flashcards))))
           (fun _ => ret (after_article self txt)))
      (one_candidate_trace t1).
Proof.
  intros Hfetch Hclean.
  pose proof (clean_and_count_words_found _ _ _ _ Hclean) as Htrace.
  destruct (run_with_candidates self (after_article self txt) max_articles
              t t1 (t1 ++ [Print (u "Processing article 1/1")] ++ [Sleep 1])
              [txt] [(word, pos)] Hfetch) as (sample & Hsample & ->);
    [|done|].
  - cbn [process_articles length]. unfold bind at 1.
    unfold print at 1, emit at 1.
    change (u "Processing article " ++ of_nat 1 ++ u "/" ++ of_nat 1)
      with (u "Processing article 1/1").
    unfold bind at 1.
    destruct (clean_and_count_words W df txt _) as [r t2].
    cbn [fst snd] in Hclean, Htrace. subst r t2.
    unfold bind, emit, ret. cbn [app]. by rewrite <- app_assoc.
  - rewrite rarity_sample_single in Hsample. injection Hsample as <-.
    unfold one_candidate_trace. rewrite <- !app_assoc. reflexivity.
Qed.

(** When no source gives a definition, line 128 is reached after the three
    requests. *)
Lemma fetch_definition_sources_fail (word : pystr) (t : trace) :
  definition_sources_fail W word ->
  fetch_definition W word t
  = lexicon_lookup W word
      (t ++ [HttpGet (dictionary_url word);
             HttpGet (wiktionary_url word);
             HttpGet (tatoeba_url word)]).
Proof.
  intros Hfail. unfold fetch_definition, bind.
  pose proof (source_dictionary_trace W word t) as Hta.
  assert (Ha : fst (try_pass (source_dictionary W word) t) = Ok None).
  { apply try_pass_nothing. intros d. apply (Hfail t d). }
  destruct (try_pass (source_dictionary W word) t) as [ra ta].
  cbn [fst snd] in Ha, Hta. subst ra ta.
  pose proof (source_wiktionary_trace W word
                (t ++ [HttpGet (dictionary_url word)])) as Htb.
  assert (Hb : fst (try_pass (source_wiktionary W word)
                      (t ++ [HttpGet (dictionary_url word)])) = Ok None).
  { apply try_pass_nothing. intros d. apply (Hfail _ d). }
  destruct (try_pass (source_wiktionary W word) _) as [rb tb].
  cbn [fst snd] in Hb, Htb. subst rb tb.
  match goal with |- context [try_pass (source_tatoeba W word) ?t0] =>
    pose proof (source_tatoeba_trace W word t0) as Htc;
    assert (Hc : fst (try_pass (source_tatoeba W word) t0) = Ok None)
      by (apply try_pass_nothing; intros d; apply (Hfail _ d));
    destruct (try_pass (source_tatoeba W word) t0) as [rc tc]
  end.
  cbn [fst snd] in Hc, Htc. subst rc tc.
  by rewrite <- !app_assoc.
Qed.

(** C3 (defect of the code).  With every remote source of definitions
    failing, and [lexicon_defs] bound by nothing, as hello.py leaves it, a
    run on one document with exactly one candidate makes no record at all:
    after the three requests for the word the [NameError] of line 128
    leaves the run.  No record is printed and the output file is not
    written. *)
Theorem run_one_candidate_sources_fail_raises (self : RSSScraper)
    (max_articles : Z) (t t1 : trace) (txt word pos : pystr) :
  lexicon_defs W = None ->
  definition_sources_fail W word ->
  fetch_articles_from_rss W self max_articles t = (Ok [txt], t1) ->
  fst (clean_and_count_words W df txt
         (t1 ++ [Print (u "Processing article 1/1")]))
  = Ok [(word, pos)] ->
  run W df self max_articles t
  = (Raise (NameError (u "lexicon_defs")),
     one_candidate_trace t1
       ++ [HttpGet (dictionary_url word);
           HttpGet (wiktionary_url word);
           HttpGet (tatoeba_url word)]).
Proof.
  intros Hnone Hfail Hfetch Hclean.
  rewrite (run_one_candidate_steps self max_articles t t1 txt word pos)
    by done.
  unfold bind at 1. cbn [make_flashcards]. unfold bind at 1.
  rewrite fetch_definition_sources_fail by done.
  unfold lexicon_lookup. rewrite Hnone. reflexivity.
Qed.

(** When no request is answered with a 200, every source of definitions
    fails. *)
Lemma remote_down_sources_fail (word : pystr) :
  remote_down W -> definition_sources_fail W word.
Proof.
  intros Hdown t d.
  unfold source_dictionary, source_wiktionary, source_tatoeba, bind,
    http_get.
  pose proof (Hdown t (dictionary_url word)) as Ha.
  pose proof (Hdown t (wiktionary_url word)) as Hb.
  pose proof (Hdown t (tatoeba_url word)) as Hc.
  destruct (requests_get W t (dictionary_url word)) as [ra|ea];
    destruct (requests_get W t (wiktionary_url word)) as [rb|eb];
    destruct (requests_get W t (tatoeba_url word)) as [rc|ec];
    repeat match goal with
           | Hs : status_code _ <> 200%Z |- _ =>
               apply Z.eqb_neq in Hs; rewrite Hs
           end;
    done.
Qed.

(** When the resolver gives the empty string instead - a source answers
    with an empty text, or the lexicon, were it bound, has no entry for the
    word - line 301 puts the placeholder: the one record holds it, with an
    empty english field and the sentence [find_example_sentence] gives. *)
Lemma run_one_candidate_empty_definition (self : RSSScraper)
    (max_articles : Z) (t t1 asked found : trace)
    (txt word pos sentence : pystr) :
  fetch_articles_from_rss W self max_articles t = (Ok [txt], t1) ->
  fst (clean_and_count_words W df txt
         (t1 ++ [Print (u "Processing article 1/1")]))
  = Ok [(word, pos)] ->
  fetch_definition W word (one_candidate_trace t1) = (Ok [], asked) ->
  find_example_sentence W (after_article self txt) word asked
  = (Ok sentence, found) ->
  run W df self max_articles t
  = (Ok (after_article self txt),
     found
       ++ [Print (record_lines word pos placeholder sentence);
           WriteFile output_path
             (output_header
                ++ output_line
                     {| card_word := word;
                        card_definition := placeholder;
                        card_sentence := sentence;
                        card_english := JStr [] |})]).
Proof.
  intros Hfetch Hclean Hdef Hexample.
  rewrite (run_one_candidate_steps self max_articles t t1 txt word pos)
    by done.
  unfold bind at 1. cbn [make_flashcards]. unfold bind at 1.
  rewrite Hdef. cbn [nonempty]. unfold bind at 1. rewrite Hexample.
  rewrite placeholder_nonempty, bool_decide_eq_true_2 by done.
  cbn [negb andb].
  unfold bind, print, emit, ret, record_lines.
  cbn [app map concat]. rewrite app_nil_r, <- !app_assoc. reflexivity.
Qed.

(** The [NameError] leaves the loop over the words right after the three
    requests for a word. *)
Lemma make_flashcards_raise (self : RSSScraper) (flashcards : list Flashcard)
    (sample : list (pystr * pystr)) (t t' : trace) (e : exn) :
  make_flashcards W self flashcards sample t = (Raise e, t') ->
  exists before word,
    t' = t ++ before
           ++ [HttpGet (dictionary_url word);
               HttpGet (wiktionary_url word);
               HttpGet (tatoeba_url word)].
Proof.
  revert flashcards t.
  induction sample as [|[word pos] sample IH]; intros flashcards t Hrun;
    [done|].
  cbn [make_flashcards] in Hrun.
  destruct (fetch_definition_facts W word t) as (r & new & Heq & _ & Hr).
  apply bind_raise_inv in Hrun as [Hdef|(d & td & Hdef & Hrun)].
  { rewrite Heq in Hdef. injection Hdef as -> <-.
    destruct Hr as (_ & _ & ->). by exists [], word. }
  rewrite Heq in Hdef. injection Hdef as -> <-. cbv zeta in Hrun.
  set (definition := if nonempty d then d else placeholder) in Hrun.
  destruct (find_example_sentence_facts W self word (t ++ new))
    as (sentence & new1 & Hex & _).
  apply bind_raise_inv in Hrun as [Hraise|(s & tex & Hs & Hrun)];
    [by rewrite Hex in Hraise|].
  rewrite Hex in Hs. injection Hs as <- <-.
  apply bind_raise_inv in Hrun as [Hraise|(english & ten & Hen & Hrun)].
  { destruct (nonempty definition
              && negb (bool_decide (definition = placeholder)));
      [|done].
    unfold try_except in Hraise.
    by destruct (bind (post_translate W definition) _ _) as [[?|?] ?]. }
  assert (Hten : exists new2, ten = (t ++ new) ++ new1 ++ new2).
  { destruct (nonempty definition
              && negb (bool_decide (definition = placeholder))).
    - unfold try_except, bind, post_translate, lift, ret in Hen.
      destruct (translate W _ definition) as [tr|e0].
      + destruct (get tr _ _); injection Hen as _ <-;
          eexists [_]; by rewrite <- app_assoc.
      + injection Hen as _ <-. eexists [_]. by rewrite <- app_assoc.
    - injection Hen as _ <-. exists []. by rewrite app_nil_r. }
  destruct Hten as (new2 & ->).
  apply bind_raise_inv in Hrun as [Hraise|([] & tp & Hp & Hrun)]; [done|].
  unfold print, emit in Hp. injection Hp as <-.
  apply IH in Hrun as (before & word' & ->).
  eexists (new ++ new1 ++ new2 ++ [_] ++ before), word'.
  by rewrite <- !app_assoc.
Qed.

Lemma run_raise_tail (self : RSSScraper) (max_articles : Z) (t t' : trace)
    (e : exn) :
  run W df self max_articles t = (Raise e, t') ->
  exists before word,
    t' = t ++ before
           ++ [HttpGet (dictionary_url word);
               HttpGet (wiktionary_url word);
               HttpGet (tatoeba_url word)].
Proof.
  intros Hrun.
  destruct (fetch_feeds_facts W max_articles [] (rss_feeds self) t)
    as (articles & new0 & Hfetch & _); [cbn; lia|].
  cbn [app] in Hfetch. fold (fetch_articles_from_rss W self max_articles)
    in Hfetch.
  destruct (process_articles_facts W df (length articles) 1 self []
              articles (t ++ new0)) as (words & new1 & Hprocess & _).
  cbn [app] in Hprocess.
  destruct articles as [|a articles].
  { rewrite (run_no_articles W df self max_articles t _ Hfetch) in Hrun.
    done. }
  destruct words as [|c words].
  { rewrite (run_no_candidates W df self _ max_articles t _ _ _
               Hfetch ltac:(done) Hprocess) in Hrun. done. }
  destruct (run_with_candidates self _ max_articles t _ _ _ _
              Hfetch Hprocess ltac:(done)) as (sample & _ & Heq).
  rewrite Heq in Hrun.
  apply bind_raise_inv in Hrun as [Hraise|(cards & tc & _ & Hraise)].
  - apply make_flashcards_raise in Hraise as (before & word & ->).
    eexists (new0 ++ new1 ++ [_] ++ banner ++ before), word.
    by rewrite <- !app_assoc.
  - unfold bind, emit, ret in Hraise. done.
Qed.

End TerminalStates.

Section RunProperties.
Context `{Runtime} (W : World) (df : list LexRow).

(** X17.  A run writes a file at most once, as the last thing it does, and
    only data/advanced_flashcard_words.tsv: the header line followed by at
    most 30 records in ascending order of their words.  The definition
    field of a record is never empty, and its english field is empty when
    the definition is the placeholder. *)
Theorem run_output_file (self : RSSScraper) (max_articles : Z) (t : trace) :
  exists r new,
    run W df self max_articles t = (r, t ++ new)
    /\ (Forall (fun e => ~ is_write e) new
        \/ exists before cards self',
             r = Ok self'
             /\ new = before
                        ++ [WriteFile output_path
                              (output_header ++ concat (map output_line cards))]
             /\ Forall (fun e => ~ is_write e) before
             /\ length cards <= 30
             /\ Forall well_formed_card cards
             /\ StronglySorted (key_le card_word) cards).
Proof.
  destruct (run_facts W df self max_articles t) as (r & new & Heq & Hr).
  exists r, new. split; [done|]. destruct r as [self'|e].
  - destruct Hr as (_ & _ & [(before & Hbefore & Hnew)
                            |(before & cards & -> & Hbefore & Hcards)]).
    + left. destruct Hnew as [-> | ->]; apply Forall_app; split;
        try (eapply Forall_impl; [exact Hbefore|apply pipeline_not_write]);
        (constructor; [|constructor]); by intros (p & c & ?).
    + right. exists before, cards, self'. split; [done|]. split; [done|].
      split; [|done].
      eapply Forall_impl; [exact Hbefore|apply pipeline_not_write].
  - left. destruct Hr as [_ Hnew].
    eapply Forall_impl; [exact Hnew|apply pipeline_not_write].
Qed.

(** X18.  A run posts to the translation service only, and never an empty
    definition or the placeholder. *)
Theorem translation_only_for_real_definitions (self : RSSScraper)
    (max_articles : Z) (t : trace) :
  exists r new,
    run W df self max_articles t = (r, t ++ new)
    /\ forall url q, HttpPost url q ∈ new ->
         url = u "https://libretranslate.com/translate"
         /\ q <> [] /\ q <> placeholder.
Proof.
  destruct (run_facts W df self max_articles t) as (r & new & Heq & Hr).
  exists r, new. split; [done|]. intros url q Hin.
  assert (Hall : exists before, Forall pipeline_event before
                                /\ (HttpPost url q ∈ before)).
  { destruct r as [self'|e].
    - destruct Hr as (_ & _ & [(before & Hbefore & Hnew)
                              |(before & cards & -> & Hbefore & _)]).
      + exists before. split; [done|].
        destruct Hnew as [-> | ->];
          apply elem_of_app in Hin as [Hin|Hin]; try done;
          apply list_elem_of_singleton in Hin; discriminate Hin.
      + exists before. split; [done|].
        apply elem_of_app in Hin as [Hin|Hin]; [done|].
        apply list_elem_of_singleton in Hin. discriminate Hin.
    - exists new. by destruct Hr. }
  destruct Hall as (before & Hall & Hin').
  rewrite List.Forall_forall in Hall.
  apply list_elem_of_In, Hall in Hin'. exact Hin'.
Qed.

(** X19.  When the [NameError] of line 128 leaves a run, nothing binds
    [lexicon_defs]; the last thing the run did was to make the three
    requests for one word, one after the other, and it has written no
    file: the records of the words resolved before are lost with it. *)
Theorem run_name_error_after_three_requests (self : RSSScraper)
    (max_articles : Z) (t t' : trace) :
  run W df self max_articles t = (Raise (NameError (u "lexicon_defs")), t') ->
  lexicon_defs W = None
  /\ exists before word,
       t' = t ++ before
              ++ [HttpGet (dictionary_url word);
                  HttpGet (wiktionary_url word);
                  HttpGet (tatoeba_url word)]
       /\ Forall (fun e => ~ is_write e) before.
Proof.
  intros Hrun.
  destruct (run_facts W df self max_articles t) as (r & new & Heq & Hr).
  rewrite Hrun in Heq. injection Heq as <- ->.
  destruct Hr as [[_ Hdefs] Hnew]. split; [done|].
  apply run_raise_tail in Hrun as (before & word & Hrun).
  apply app_inv_head in Hrun. subst new.
  exists before, word. split; [done|].
  apply Forall_app in Hnew as [Hnew _].
  eapply Forall_impl; [exact Hnew|apply pipeline_not_write].
Qed.

(** X20.  A run that ends normally leaves the feeds of the scraper as they
    were and its sentences as they were, followed by the sentences of the
    fetched articles in their order: sentences of earlier runs stay. *)
Theorem run_accumulates_sentences (self self' : RSSScraper)
    (max_articles : Z) (t t' : trace) :
  run W df self max_articles t = (Ok self', t') ->
  rss_feeds self' = rss_feeds self
  /\ exists articles,
       fst (fetch_articles_from_rss W self max_articles t) = Ok articles
       /\ article_sentences self'
          = article_sentences self ++ flat_map split_sentences articles.
Proof.
  intros Hrun.
  destruct (run_facts W df self max_articles t) as (r & new & Heq & Hr).
  rewrite Hrun in Heq. injection Heq as <- ->.
  by destruct Hr as (? & ? & _).
Qed.

(** X21.  When spaCy cannot be loaded, a run ends normally with "No
    articles fetched." or "Nothing to process." as its last line; it has
    only parsed feeds, printed and slept: no request, no file. *)
Theorem run_without_tagger (self : RSSScraper) (max_articles : Z)
    (t : trace) :
  (forall t0, spacy_load W t0 = None) ->
  exists self' new,
    run W df self max_articles t = (Ok self', t ++ new)
    /\ Forall (fun e => feed_event e \/ quiet_event e) new
    /\ (last new = Some (Print (u "No articles fetched."))
        \/ last new = Some (Print (u "Nothing to process."))).
Proof.
  intros Hno. unfold run. unfold bind at 1.
  destruct (fetch_feeds_facts W max_articles [] (rss_feeds self) t)
    as (articles & new0 & Hfetch & _ & _ & Hev0 & _); [cbn; lia|].
  cbn [app] in Hfetch. unfold fetch_articles_from_rss. rewrite Hfetch.
  assert (Hp0 : Forall (fun e => feed_event e \/ quiet_event e) new0)
    by (eapply Forall_impl; [exact Hev0|by left]).
  destruct articles as [|a articles].
  { unfold bind, print, emit, ret. eexists _, _. rewrite <- app_assoc.
    split; [reflexivity|]. split.
    - apply Forall_app. split; [done|].
      constructor; [right; left; by eexists|constructor].
    - left. by rewrite last_snoc. }
  unfold bind at 1.
  destruct (process_articles_facts W df (length (a :: articles)) 1 self []
              (a :: articles) (t ++ new0))
    as (words & new1 & -> & Hev1 & _ & Hnone).
  rewrite (Hnone Hno). cbn [fst snd app length].
  unfold bind, print, emit, ret. eexists _, _. rewrite <- !app_assoc.
  split; [reflexivity|]. split.
  - apply Forall_app. split; [done|]. apply Forall_app. split.
    { eapply Forall_impl; [exact Hev1|by right]. }
    constructor; [right; left; by eexists|].
    constructor; [right; left; by eexists|constructor].
  - right. rewrite !app_assoc. by rewrite last_snoc.
Qed.
End RunProperties.

(** X16.  The sample of line 294 is drawn without replacement from the
    pairs counted once: no pair is in it twice. *)
Theorem rarity_sample_no_repeat (W : World)
    (all_words : list (pystr * pystr)) :
  exists sample,
    rarity_sample W all_words = Ok sample
    /\ NoDup sample
    /\ sample ⊆+ uniques all_words.
Proof.
  destruct (rarity_sample_facts W all_words) as (sample & Heq & _ & Hnd & Hsub & _).
  by exists sample.
Qed.

Section LexiconComposition.
Context `{Runtime}.

(** X15.  The advanced-lemma set of a lexicon given in two parts is the
    union of the sets of the parts. *)
Theorem advanced_lemmas_app (df1 df2 : list LexRow) :
  advanced_lemmas (df1 ++ df2) = advanced_lemmas df1 ∪ advanced_lemmas df2.
Proof.
  unfold advanced_lemmas.
  by rewrite List.filter_app, map_app, list_to_set_app_L.
Qed.

(** X14.  A word listed in the file of frequent words never becomes a
    candidate: for every non-blank line of the file, its trimmed and
    lowercased form is the lemma of no candidate. *)
Theorem candidates_avoid_frequent_words (W : World) (df : list LexRow)
    (text : pystr) (t : trace) (lines : list pystr) (line : pystr) :
  frequent_words W t = Some lines ->
  line ∈ lines ->
  strip line <> [] ->
  exists cands,
    fst (clean_and_count_words W df text t) = Ok cands
    /\ forall pos, (lower (strip line), pos) ∉ cands.
Proof.
  intros Hfile Hline Hblank. unfold clean_and_count_words.
  destruct (spacy_load W t) as [nlp|].
  2:{ exists []. split; [done|]. intros pos Hin. by apply elem_of_nil in Hin. }
  eexists. split; [reflexivity|]. intros pos Hin.
  apply list_elem_of_In, in_map_iff in Hin as (tok & Heq & Htok).
  apply filter_In in Htok as [_ Hk]. unfold keeps in Hk.
  rewrite !andb_true_iff, negb_true_iff, bool_decide_eq_false in Hk.
  destruct Hk as [_ Hex]. apply Hex. injection Heq as -> _.
  unfold excluded_words. rewrite Hfile. apply elem_of_union. right.
  unfold common_words_of. rewrite elem_of_list_to_set, list_elem_of_In.
  apply in_map_iff. exists line. split; [done|].
  apply filter_In. split; [by apply list_elem_of_In|].
  by destruct (strip line).
Qed.
End LexiconComposition.

(** ** A run that resolves and translates *)

Section HappyPath.
Context `{Runtime} (W : World) (df : list LexRow).

(** The dictionary answers at once: only the first request is made. *)
Lemma fetch_definition_dictionary_facts (word : pystr) (t : trace)
    (r : Response) (s : pystr) :
  requests_get W t (dictionary_url word) = Ok r ->
  dictionary_success r s ->
  fetch_definition W word t
  = (Ok (strip s), t ++ [HttpGet (dictionary_url word)]).
Proof.
  intros Hr Hs. unfold fetch_definition, bind, try_pass, try_except.
  by rewrite (source_dictionary_success W word t r s).
Qed.

(** X22.  On one document with exactly one candidate, when the dictionary
    answers with a definition that is not blank and the translation
    service answers with an object, a run looks for the example sentence of
    the word, posts the trimmed definition for translation, prints the
    record and writes the header and exactly one record: the word, the
    trimmed definition, the sentence that [find_example_sentence] gave for
    the word, and the value of [translatedText] (the empty string when the
    object has no such member). *)
Theorem run_one_candidate_translated (self : RSSScraper) (max_articles : Z)
    (t t1 found : trace) (txt word pos sentence : pystr) (r : Response)
    (s : pystr) (tr english : value) :
  fetch_articles_from_rss W self max_articles t = (Ok [txt], t1) ->
  fst (clean_and_count_words W df txt
         (t1 ++ [Print (u "Processing article 1/1")]))
  = Ok [(word, pos)] ->
  requests_get W (one_candidate_trace t1) (dictionary_url word) = Ok r ->
  dictionary_success r s ->
  strip s <> [] ->
  strip s <> placeholder ->
  find_example_sentence W (after_article self txt) word
    (one_candidate_trace t1 ++ [HttpGet (dictionary_url word)])
  = (Ok sentence, found) ->
  translate W found (strip s) = Ok tr ->
  get tr (u "translatedText") (JStr []) = Ok english ->
  run W df self max_articles t
  = (Ok (after_article self txt),
     found
       ++ [HttpPost (u "https://libretranslate.com/translate") (strip s);
           Print (record_lines word pos (strip s) sentence);
           WriteFile output_path
             (output_header
                ++ output_line
                     {| card_word := word;
                        card_definition := strip s;
                        card_sentence := sentence;
                        card_english := english |})]).
Proof.
  intros Hfetch Hclean Hdict Hsuccess Hne Hnp Hexample Htr Hget.
  rewrite (run_one_candidate_steps W df self max_articles t t1 txt word pos)
    by done.
  unfold bind at 1. cbn [make_flashcards]. unfold bind at 1.
  rewrite (fetch_definition_dictionary_facts word _ r s Hdict Hsuccess).
  assert (Hdef : nonempty (strip s) = true) by (by destruct (strip s)).
  rewrite Hdef. unfold bind at 1. rewrite Hexample.
  rewrite Hdef, bool_decide_eq_false_2 by done. cbn [negb andb].
  unfold bind at 1. unfold try_except, bind, post_translate, lift.
  rewrite Htr, Hget. unfold print, emit, ret, record_lines.
  cbn [app map concat]. rewrite app_nil_r, <- !app_assoc. reflexivity.
Qed.
End HappyPath.

(** * The program run in the example worlds *)

#[local] Existing Instance latin_runtime.

Lemma stub_world_down snippet tokens defs :
  remote_down (stub_world snippet tokens defs).
Proof. intros t url. exact I. Qed.

(** C1 (defect of the code).  With every request raising, the three remote
    sources fail and [fetch_definition] goes on to line 128, where the name
    [lexicon_defs], which nothing binds, is looked up: a [NameError] leaves
    the resolver instead of the empty string being returned. *)
Theorem fetch_definition_all_sources_fail_raises :
  fetch_definition offline (u "bonjour") []
  = (Raise (NameError (u "lexicon_defs")),
     [HttpGet (dictionary_url (u "bonjour"));
      HttpGet (wiktionary_url (u "bonjour"));
      HttpGet (tatoeba_url (u "bonjour"))]).
Proof. vm_compute. reflexivity. Qed.

Lemma run_without_rarities_writes_file :
  uniques [candidate_of tok_ok; candidate_of tok_ok] = []
  /\ run twice flelex new_scraper 1 []
     = (Ok (scraper_with [u "La xénophobie nourrit la xénophobie."]),
        [FeedParse france24;
         Print (u "Processing article 1/1");
         Sleep 1;
         Print (u "Total candidate tokens: 2")]
          ++ banner
          ++ [WriteFile output_path output_header]).
Proof. split; vm_compute; reflexivity. Qed.

Lemma run_no_rarities_writes_header_witness :
  run twice flelex new_scraper 1 []
  = (Ok (scraper_with [u "La xénophobie nourrit la xénophobie."]),
     [FeedParse france24; Print (u "Processing article 1/1"); Sleep 1]
       ++ [Print (u "Total candidate tokens: "
                    ++ of_nat (length [candidate_of tok_ok; candidate_of tok_ok]))]
       ++ banner
       ++ [WriteFile output_path output_header]).
Proof.
  assert (Hfetch : fetch_articles_from_rss twice new_scraper 1 []
                   = (Ok [u "La xénophobie nourrit la xénophobie."],
                      [FeedParse france24]))
    by (vm_compute; reflexivity).
  assert (Hprocess :
            process_articles twice flelex 1 1 new_scraper []
              [u "La xénophobie nourrit la xénophobie."] [FeedParse france24]
            = (Ok (scraper_with [u "La xénophobie nourrit la xénophobie."],
                   [candidate_of tok_ok; candidate_of tok_ok]),
               [FeedParse france24; Print (u "Processing article 1/1");
                Sleep 1]))
    by (vm_compute; reflexivity).
  apply (proj1 (run_no_rarities_writes_header twice flelex new_scraper _ 1 []
                  _ _ _ _ Hfetch Hprocess)).
  - discriminate.
  - intros p. rewrite !occurrences_cons.
    destruct (decide (candidate_of tok_ok = p)); cbn; lia.
Defined.

Example run_no_articles_trace :
  run (answering empty_reply) flelex
    {| rss_feeds := [france24]; article_sentences := [] |} 10 []
  = (Ok {| rss_feeds := [france24]; article_sentences := [] |},
     [FeedParse france24; Print (u "No articles fetched.")]).
Proof. vm_compute. reflexivity. Qed.

Example run_as_written_and_with_lexicon :
  run as_written flelex new_scraper 1 []
  = (Raise (NameError (u "lexicon_defs")),
     [FeedParse france24;
      Print (u "Processing article 1/1");
      Sleep 1;
      Print (u "Total candidate tokens: 1")]
       ++ banner
       ++ [HttpGet (dictionary_url (u "dégringoler"));
           HttpGet (wiktionary_url (u "dégringoler"));
           HttpGet (tatoeba_url (u "dégringoler"))])
  /\ run with_lexicon flelex new_scraper 1 []
     = (Ok (scraper_with [prices]),
        [FeedParse france24;
        Print (u "Processing article 1/1");
        Sleep 1;
        Print (u "Total candidate tokens: 1")]
         ++ banner
         ++ [HttpGet (dictionary_url (u "dégringoler"));
             HttpGet (wiktionary_url (u "dégringoler"));
             HttpGet (tatoeba_url (u "dégringoler"));
             HttpGet (extract_url (u "dégringoler"));
             Print (ljust 20 (u "dégringoler") ++ u " (VERB)" ++ newline
                      ++ u "    Definition: (définition indisponible)" ++ newline
                      ++ u "    Example: Exemple par défaut : 'dégringoler' est un mot avancé à connaître."
                      ++ newline);
             WriteFile output_path
               (output_header
                  ++ u "dégringoler" ++ tab
                  ++ u "(définition indisponible)" ++ tab
                  ++ u "Exemple par défaut : 'dégringoler' est un mot avancé à connaître."
                  ++ tab ++ newline)])
  /\ u "(définition indisponible)" <> [].
Proof. split; [|split]; [vm_compute; reflexivity..|discriminate]. Qed.

Lemma run_one_candidate_sources_fail_raises_witness :
  run as_written flelex new_scraper 1 []
  = (Raise (NameError (u "lexicon_defs")),
     one_candidate_trace [FeedParse france24]
       ++ [HttpGet (dictionary_url (u "dégringoler"));
           HttpGet (wiktionary_url (u "dégringoler"));
           HttpGet (tatoeba_url (u "dégringoler"))]).
Proof.
  apply (run_one_candidate_sources_fail_raises as_written flelex new_scraper
           1 [] [FeedParse france24] prices (u "dégringoler") (u "VERB")).
  - reflexivity.
  - intros t d. repeat split; vm_compute; discriminate.
  - vm_compute. reflexivity.
  - vm_compute. reflexivity.
Defined.

(** When the sentence search answers with a result without text, the
    resolver returns the empty string and the record holds the
    placeholder. *)
Example run_blank_text_placeholder :
  last (snd (run blank_text flelex new_scraper 1 []))
  = Some (WriteFile output_path
            (output_header
               ++ u "dégringoler" ++ tab
               ++ u "(définition indisponible)" ++ tab
               ++ u "Exemple par défaut : 'dégringoler' est un mot avancé à connaître."
               ++ tab ++ newline)).
Proof. vm_compute. reflexivity. Qed.

(** The same with every request answered by a 200 that holds nothing
    usable. *)
Example run_unusable_answers :
  definition_sources_fail unusable (u "dégringoler")
  /\ run unusable flelex new_scraper 1 []
     = (Raise (NameError (u "lexicon_defs")),
        one_candidate_trace [FeedParse france24]
          ++ [HttpGet (dictionary_url (u "dégringoler"));
              HttpGet (wiktionary_url (u "dégringoler"));
              HttpGet (tatoeba_url (u "dégringoler"))]).
Proof.
  split; [|vm_compute; reflexivity].
  intros t d. repeat split; vm_compute; discriminate.
Qed.

Lemma advanced_lemmas_not_row_by_row :
  let df := [gouvernemental_rare; gouvernemental] in
  gouvernemental ∈ df
  /\ word gouvernemental ∈ advanced_lemmas df
  /\ lower (word gouvernemental) ∈ advanced_lemmas df
  /\ ~ qualifies gouvernemental.
Proof.
  cbv zeta. split; [right; left|]. split; [|split].
  - vm_compute. reflexivity.
  - vm_compute. reflexivity.
  - intros (_ & Hlt & _). vm_compute in Hlt. discriminate Hlt.
Qed.

Lemma candidate_iff_five_predicates_witness :
  clean_and_count_words (stub_world prices one_failure_each None) flelex
    prices []
  = (Ok (map candidate_of
           (filter (is_candidate (stub_world prices one_failure_each None)
                      flelex [])
              one_failure_each)), []).
Proof.
  apply (candidate_iff_five_predicates
           (stub_world prices one_failure_each None) flelex prices []
           (fun _ => one_failure_each)).
  reflexivity.
Defined.

Example one_failure_each_candidates :
  clean_and_count_words (stub_world prices one_failure_each None) flelex
    prices []
  = (Ok [(u "xénophobie", u "NOUN")], []).
Proof. vm_compute. reflexivity. Qed.

Example scenario_rarities :
  rarity_sample offline scenario
  = Ok [(u "dégringoler", u "VERB"); (u "environnement", u "NOUN")].
Proof. vm_compute. reflexivity. Qed.

Example advanced_lemmas_flelex :
  advanced_lemmas flelex
  = {[ u "xénophobie"; u "dégringoler"; u "gouvernement" ]}.
Proof. vm_compute. reflexivity. Qed.

Lemma dictionary_reply_success : dictionary_success dictionary_reply hostility.
Proof.
  split; [reflexivity|].
  eexists _, [], [_], _, [], _, [].
  split; [reflexivity|]. split; [reflexivity|]. split.
  - constructor; [|constructor]. eexists. split; [reflexivity|].
    right; left. eexists. split; [reflexivity|]. unfold falsy. auto 10.
  - split; [reflexivity|]. split; [reflexivity|]. discriminate.
Qed.

Lemma fetch_definition_dictionary_first_witness :
  fetch_definition (answering dictionary_reply) (u "xénophobie") []
  = (Ok (strip hostility), [] ++ [HttpGet (dictionary_url (u "xénophobie"))]).
Proof.
  apply (proj1 (fetch_definition_dictionary_first (answering dictionary_reply)
                  (u "xénophobie") [] dictionary_reply eq_refl)
           hostility).
  apply dictionary_reply_success.
Defined.

Lemma patchy_reply_success : dictionary_success patchy_reply hostility.
Proof.
  split; [reflexivity|].
  eexists _, [], [_; _; _], _, [], _, [].
  split; [reflexivity|]. split; [reflexivity|]. split.
  - repeat constructor; eexists; (split; [reflexivity|]).
    + right; right. eexists _, _. split; [reflexivity|]. right.
      eexists. split; [reflexivity|]. unfold falsy. auto 10.
    + right; left. eexists. split; [reflexivity|]. unfold falsy. auto 10.
    + right; right. eexists _, _. split; [reflexivity|]. by left.
  - split; [reflexivity|]. split; [reflexivity|]. discriminate.
Qed.

Example patchy_first_definition :
  fst (fetch_definition (answering patchy_reply) (u "xénophobie") [])
  = Ok (u "Hostilité envers les étrangers.").
Proof. vm_compute. reflexivity. Qed.

Example dictionary_first_definition :
  fst (fetch_definition (answering dictionary_reply) (u "xénophobie") [])
  = Ok (u "Hostilité envers les étrangers.").
Proof. vm_compute. reflexivity. Qed.

Lemma example_mixed_case_word_goes_remote :
  substring_of (lower (u "Paris")) (lower paris_sentence)
  /\ find_example_sentence (answering extract_reply)
       (scraper_with [paris_sentence]) (u "Paris") []
     = (Ok (u "Capitale de la France."), [HttpGet (extract_url (u "Paris"))]).
Proof.
  split; [|vm_compute; reflexivity].
  exists [], (u " est belle."). vm_compute. reflexivity.
Qed.

Lemma example_local_first_witness :
  exists pre s post,
    article_sentences (scraper_with [paris_sentence]) = pre ++ s :: post
    /\ (forall x, x ∈ pre -> ~ substring_of (lower (u "paris")) (lower x))
    /\ substring_of (lower (u "paris")) (lower s)
    /\ find_example_sentence (answering extract_reply)
         (scraper_with [paris_sentence]) (u "paris") []
       = (Ok (strip s), []).
Proof.
  apply (example_local_first (answering extract_reply)
           (scraper_with [paris_sentence]) (u "paris") []).
  - vm_compute. reflexivity.
  - exists paris_sentence. split; [left|].
    exists [], (u " est belle."). vm_compute. reflexivity.
Defined.

Lemma example_default_last_witness :
  find_example_sentence offline (scraper_with [paris_sentence])
    (u "xénophobie") []
  = (Ok (default_sentence (u "xénophobie")),
     [] ++ [HttpGet (extract_url (u "xénophobie"))])
  /\ substring_of (u "xénophobie") (default_sentence (u "xénophobie"))
  /\ forall self' word' t', exists s t'',
      find_example_sentence offline self' word' t' = (Ok s, t'').
Proof.
  apply (example_default_last offline (scraper_with [paris_sentence])
           (u "xénophobie") []).
  - intros s Hs Hsub. apply contains_substring in Hsub.
    apply list_elem_of_singleton in Hs. subst s.
    vm_compute in Hsub. discriminate Hsub.
  - intros s. vm_compute. discriminate.
Defined.

Lemma fetch_articles_at_most_max_witness :
  exists articles t',
    fetch_articles_from_rss offline new_scraper 2 [] = (Ok articles, t')
    /\ (Z.of_nat (length articles) <= 2)%Z.
Proof.
  apply (proj1 (fetch_articles_at_most_max offline) new_scraper 2%Z []).
  lia.
Defined.

(** * The further properties in the example worlds *)

Lemma clean_wikicode_plain_text_witness :
  _clean_wikicode (u "Crainte des étrangers") = u "Crainte des étrangers".
Proof.
  apply clean_wikicode_plain_text.
  - unfold plain.
    let l := eval vm_compute in (u "Crainte des étrangers") in
    change (u "Crainte des étrangers") with l.
    apply (proj1 (Forall_forall _ _)).
    repeat (constructor;
            [repeat split; try discriminate;
             let Hs := fresh in intros Hs; (reflexivity || discriminate Hs)|]).
    constructor.
  - apply apart_no_pair. vm_compute. tauto.
  - vm_compute. reflexivity.
Defined.

Lemma fetch_definition_wiktionary_second_witness :
  fetch_definition (only_at (wiktionary_url (u "xénophobie")) wiki_reply)
    (u "xénophobie") []
  = (Ok (u "Crainte des étrangers"),
     [] ++ [HttpGet (dictionary_url (u "xénophobie"));
            HttpGet (wiktionary_url (u "xénophobie"))])
  /\ strip (u "Crainte des étrangers") = u "Crainte des étrangers"
  /\ forall c, c ∈ u "Crainte des étrangers" ->
       c <> ord "." /\ c <> ord ";".
Proof.
  apply (fetch_definition_wiktionary_second
           (only_at (wiktionary_url (u "xénophobie")) wiki_reply)
           (u "xénophobie") [] wiki_reply).
  - intros d. vm_compute. discriminate.
  - vm_compute. reflexivity.
  - reflexivity.
  - vm_compute. reflexivity.
Defined.

Lemma fetch_definition_tatoeba_third_witness :
  fetch_definition (only_at (tatoeba_url (u "xénophobie")) tatoeba_reply)
    (u "xénophobie") []
  = (Ok (strip (u " La xénophobie recule. ")),
     [] ++ [HttpGet (dictionary_url (u "xénophobie"));
            HttpGet (wiktionary_url (u "xénophobie"));
            HttpGet (tatoeba_url (u "xénophobie"))]).
Proof.
  eapply (fetch_definition_tatoeba_third
            (only_at (tatoeba_url (u "xénophobie")) tatoeba_reply)
            (u "xénophobie") [] tatoeba_reply).
  - intros d. vm_compute. discriminate.
  - intros d. vm_compute. discriminate.
  - vm_compute. reflexivity.
  - reflexivity.
  - reflexivity.
  - reflexivity.
  - vm_compute. reflexivity.
Defined.

Lemma example_remote_second_witness :
  find_example_sentence (answering extract_reply) (scraper_with [])
    (u "Paris") []
  = (Ok (before_first (N.eqb (ord "."))
           (u "Capitale de la France. Ville.") ++ u "."),
     [] ++ [HttpGet (extract_url (u "Paris"))]).
Proof.
  eapply (example_remote_second (answering extract_reply) (scraper_with [])
            (u "Paris") [] extract_reply).
  - intros s Hs. by apply elem_of_nil in Hs.
  - reflexivity.
  - reflexivity.
  - reflexivity.
  - reflexivity.
  - reflexivity.
  - reflexivity.
  - vm_compute. discriminate.
Defined.

Lemma split_sentences_fragments_witness :
  substring_of (u "Il vente") (u "Il pleut.  Il vente! Fin").
Proof.
  apply split_sentences_fragments.
  assert (Heq : split_sentences (u "Il pleut.  Il vente! Fin")
                = [u "Il pleut"; u "Il vente"; u "Fin"])
    by (vm_compute; reflexivity).
  rewrite Heq. right. left.
Defined.

Lemma candidates_avoid_frequent_words_witness :
  exists cands,
    fst (clean_and_count_words listed flelex prices []) = Ok cands
    /\ forall pos,
         (lower (strip (u "  Xénophobie " ++ newline)), pos) ∉ cands.
Proof.
  apply (candidates_avoid_frequent_words listed flelex prices []
           frequent_lines).
  - reflexivity.
  - left.
  - vm_compute. discriminate.
Defined.

Lemma candidates_come_from_lexicon_witness :
  Forall (fun c =>
            (exists r, r ∈ flelex /\ qualifies r /\ fst c = lower (word r))
            /\ (fst c ∉ static_excluded)
            /\ snd c ∈ [u "NOUN"; u "VERB"; u "ADJ"; u "ADV"])
    [(u "xénophobie", u "NOUN")].
Proof.
  apply (candidates_come_from_lexicon
           (stub_world prices one_failure_each None) flelex prices [] []).
  vm_compute. reflexivity.
Defined.

Lemma run_name_error_after_three_requests_witness :
  lexicon_defs as_written = None
  /\ exists before word,
       one_candidate_trace [FeedParse france24]
         ++ [HttpGet (dictionary_url (u "dégringoler"));
             HttpGet (wiktionary_url (u "dégringoler"));
             HttpGet (tatoeba_url (u "dégringoler"))]
       = [] ++ before
            ++ [HttpGet (dictionary_url word);
                HttpGet (wiktionary_url word);
                HttpGet (tatoeba_url word)]
       /\ Forall (fun e => ~ is_write e) before.
Proof.
  apply (run_name_error_after_three_requests as_written flelex new_scraper
           1 []).
  vm_compute. reflexivity.
Defined.

Example listed_candidates :
  fst (clean_and_count_words listed flelex prices [])
  = Ok [(u "dégringoler", u "VERB")].
Proof. vm_compute. reflexivity. Qed.

Lemma run_accumulates_sentences_witness :
  rss_feeds (scraper_with [u "La xénophobie nourrit la xénophobie."])
  = rss_feeds new_scraper
  /\ exists articles,
       fst (fetch_articles_from_rss twice new_scraper 1 []) = Ok articles
       /\ article_sentences
            (scraper_with [u "La xénophobie nourrit la xénophobie."])
          = article_sentences new_scraper
              ++ flat_map split_sentences articles.
Proof.
  eapply (run_accumulates_sentences twice flelex new_scraper _ 1 [] _).
  vm_compute. reflexivity.
Defined.

Lemma run_without_tagger_witness :
  exists self' new,
    run no_tagger flelex new_scraper 1 [] = (Ok self', [] ++ new)
    /\ Forall (fun e => feed_event e \/ quiet_event e) new
    /\ (last new = Some (Print (u "No articles fetched."))
        \/ last new = Some (Print (u "Nothing to process."))).
Proof.
  apply (run_without_tagger no_tagger flelex new_scraper 1 []).
  intros t0. reflexivity.
Defined.

Example run_no_tagger_trace :
  run no_tagger flelex new_scraper 1 []
  = (Ok (scraper_with [prices]),
     [FeedParse france24;
      Print (u "Processing article 1/1");
      Print (u "spaCy unavailable → skipping this article");
      Sleep 1;
      Print (u "Total candidate tokens: 0");
      Print (u "Nothing to process.")]).
Proof. vm_compute. reflexivity. Qed.

Lemma run_one_candidate_translated_witness :
  run translating flelex new_scraper 1 []
  = (Ok (after_article new_scraper (u "La xénophobie progresse.")),
     (one_candidate_trace [FeedParse france24]
        ++ [HttpGet (dictionary_url (u "xénophobie"))])
       ++ [HttpPost (u "https://libretranslate.com/translate")
             (strip hostility);
           Print (record_lines (u "xénophobie") (u "NOUN") (strip hostility)
                    (u "La xénophobie progresse."));
           WriteFile output_path
             (output_header
                ++ output_line
                     {| card_word := u "xénophobie";
                        card_definition := strip hostility;
                        card_sentence := u "La xénophobie progresse.";
                        card_english :=
                          JStr (u "Hostility towards foreigners.") |})]).
Proof.
  apply (run_one_candidate_translated translating flelex new_scraper 1 []
           [FeedParse france24] _ (u "La xénophobie progresse.")
           (u "xénophobie") (u "NOUN") (u "La xénophobie progresse.")
           dictionary_reply hostility
           (JObj [(u "translatedText",
                   JStr (u "Hostility towards foreigners."))])).
  - vm_compute. reflexivity.
  - vm_compute. reflexivity.
  - reflexivity.
  - apply dictionary_reply_success.
  - vm_compute. discriminate.
  - vm_compute. discriminate.
  - vm_compute. reflexivity.
  - reflexivity.
  - vm_compute. reflexivity.
Defined.

Example run_translating_file :
  last (snd (run translating flelex new_scraper 1 []))
  = Some (WriteFile output_path
            (output_header
               ++ u "xénophobie" ++ tab
               ++ u "Hostilité envers les étrangers." ++ tab
               ++ u "La xénophobie progresse." ++ tab
               ++ u "Hostility towards foreigners." ++ newline)).
Proof. vm_compute. reflexivity. Qed.
